(** * Security agent of the FastAPI backend: static analysis, corroboration,
    canonicalisation, merging and scoring.

    Shallow embedding of [app/core/Agents/security_agent.py]
    ([run_static_analysis], [retrieve_security_docs] once the vector store has
    answered, and [analyze_code_security] given the model's parsed reply: the
    nested [verify_ai_finding], the merge loop, the nested
    [canonicalize_issue], the penalty score and the returned dict), and of the
    legacy [app/core/security_agent.py] that the API router imports (its
    [run_static_analysis], merge and risk-point score).

    Python [str] values are modelled as ASCII [string]s; [str.lower] is ASCII
    lower-casing.  The score is a Python float, but every value it takes is an
    integer below 2^53 (sums of 80, 55, 40 and 15), so it is modelled exactly
    in [Z]. *)

From Stdlib Require Import Ascii String List Bool Arith ZArith Lia Permutation.
Import ListNotations.
Open Scope string_scope.

(** ** Python string helpers *)

Module Py.

(** [str.lower] on one ASCII character. *)
Definition lower_char (c : ascii) : ascii :=
  let n := nat_of_ascii c in
  if ((65 <=? n) && (n <=? 90))%nat then ascii_of_nat (n + 32)%nat else c.

(** [str.lower]. *)
Fixpoint lower (s : string) : string :=
  match s with
  | EmptyString => EmptyString
  | String c s' => String (lower_char c) (lower s')
  end.

(** [k in s] for strings. *)
Fixpoint contains (k s : string) : bool :=
  prefix k s || match s with
                | EmptyString => false
                | String _ s' => contains k s'
                end.

(** Membership of a string in a Python set or list of strings. *)
Definition mem (x : string) (l : list string) : bool :=
  existsb (String.eqb x) l.

(** [x or ""] for a string that may be absent ([None]) or falsy (empty). *)
Definition or_empty (x : option string) : string :=
  match x with Some s => s | None => "" end.

End Py.

(** ** Findings *)

(** A finding is a Python dict.  The fields that may be absent in an
    external (model-produced) finding are options; [original_issue] is the key
    added by the canonicalisation loop. *)
Record finding := mkFinding {
  issue : option string;
  severity : option string;
  explanation : string;
  line_numbers : list nat;
  fix_suggestion : string;
  original_issue : option string
}.

(** A finding as the pattern matcher builds it. *)
Definition mk (i sev expl : string) (lines : list nat) (fx : string) : finding :=
  mkFinding (Some i) (Some sev) expl lines fx None.

(** ** Scorer *)

Module Scorer.

(** [severity_penalty = {"critical": 80.0, "high": 55.0, "medium": 40.0,
    "low": 15.0}] as an association list. *)
Definition severity_penalty : list (string * Z) :=
  [("critical", 80%Z); ("high", 55%Z); ("medium", 40%Z); ("low", 15%Z)].

(** [dict.get(key, default)]. *)
Fixpoint dict_get (d : list (string * Z)) (k : string) (default : Z) : Z :=
  match d with
  | [] => default
  | (k', v) :: d' => if String.eqb k k' then v else dict_get d' k default
  end.

(** [(v.get("severity") or "low").lower()]: an absent, [None] or empty
    severity becomes ["low"]. *)
Definition severity_key (v : finding) : string :=
  match severity v with
  | Some s => if String.eqb s "" then "low" else Py.lower s
  | None => "low"
  end.

Definition penalty (v : finding) : Z :=
  dict_get severity_penalty (severity_key v) 15%Z.

(** [total_penalty = sum(...)]. *)
Fixpoint total_penalty (vs : list finding) : Z :=
  match vs with
  | [] => 0%Z
  | v :: vs' => (penalty v + total_penalty vs')%Z
  end.

(** [security_score = max(0.0, 100.0 - total_penalty)]. *)
Definition security_score (vs : list finding) : Z :=
  Z.max 0 (100 - total_penalty vs)%Z.

Inductive risk := RLow | RMedium | RHigh | RCritical.

(** The [if/elif] chain on [security_score]. *)
Definition risk_level_of (score : Z) : risk :=
  if (80 <=? score)%Z then RLow
  else if (60 <=? score)%Z then RMedium
  else if (40 <=? score)%Z then RHigh
  else RCritical.

Definition risk_level (vs : list finding) : risk :=
  risk_level_of (security_score vs).

(** The penalty table as the specification words it: critical=80, high=55,
    medium=40, low=15 by case-insensitive name, and 15 for anything else,
    including a missing severity. *)
Definition spec_penalty (sev : option string) : Z :=
  match sev with
  | None => 15%Z
  | Some s =>
      let l := Py.lower s in
      if String.eqb l "critical" then 80%Z
      else if String.eqb l "high" then 55%Z
      else if String.eqb l "medium" then 40%Z
      else 15%Z
  end.

End Scorer.

(** ** Python [re], restricted to the syntax the analyser uses *)

Module Re.

(** Items of a character class [[...]]. *)
Inductive cls_item :=
| CChar (c : ascii)
| CRange (lo hi : ascii)
| CWord                       (* \w *)
| CSpace.                     (* \s *)

Inductive regex :=
| Void                        (* a pattern that failed to parse *)
| Eps
| Chr (c : ascii)
| Any                         (* . *)
| Cls (neg : bool) (items : list cls_item)
| Seq (r1 r2 : regex)
| Alt (r1 r2 : regex)
| Star (greedy : bool) (r : regex)   (* * (greedy) and *? (lazy) *)
| WordB.                      (* \b *)

(** [re.IGNORECASE] and [re.DOTALL]. *)
Record flags := Flags { icase : bool; dotall : bool }.

Definition F0 := Flags false false.
Definition FI := Flags true false.
Definition FIS := Flags true true.

Definition nl : ascii := ascii_of_nat 10.

Definition is_digit (c : ascii) : bool :=
  let n := nat_of_ascii c in ((48 <=? n) && (n <=? 57))%nat.
Definition is_alpha (c : ascii) : bool :=
  let n := nat_of_ascii c in
  ((65 <=? n) && (n <=? 90) || (97 <=? n) && (n <=? 122))%nat.
(** [\w] on ASCII. *)
Definition is_word (c : ascii) : bool :=
  is_alpha c || is_digit c || Ascii.eqb c "_".
(** [\s] on ASCII: [str.isspace], i.e. 9..13, 28..31 and 32. *)
Definition is_space (c : ascii) : bool :=
  let n := nat_of_ascii c in
  ((9 <=? n) && (n <=? 13) || (28 <=? n) && (n <=? 32))%nat.

Definition upper_char (c : ascii) : ascii :=
  let n := nat_of_ascii c in
  if ((97 <=? n) && (n <=? 122))%nat then ascii_of_nat (n - 32)%nat else c.

Definition item_match (it : cls_item) (c : ascii) : bool :=
  match it with
  | CChar d => Ascii.eqb c d
  | CRange lo hi =>
      ((nat_of_ascii lo <=? nat_of_ascii c) && (nat_of_ascii c <=? nat_of_ascii hi))%nat
  | CWord => is_word c
  | CSpace => is_space c
  end.

(** Under [IGNORECASE] a class also accepts the other case of a letter. *)
Definition cls_match (fl : flags) (neg : bool) (its : list cls_item) (c : ascii) : bool :=
  let hit d := existsb (fun it => item_match it d) its in
  let pos := if icase fl then hit c || hit (Py.lower_char c) || hit (upper_char c)
             else hit c in
  xorb neg pos.

Definition chr_match (fl : flags) (c d : ascii) : bool :=
  if icase fl then Ascii.eqb (Py.lower_char c) (Py.lower_char d) else Ascii.eqb c d.

(** Duplicate removal that keeps the first (highest priority) occurrence. *)
Fixpoint dedup_go (seen : list nat) (l : list nat) : list nat :=
  match l with
  | [] => []
  | x :: l' => if existsb (Nat.eqb x) seen then dedup_go seen l'
               else x :: dedup_go (x :: seen) l'
  end.
Definition dedup (l : list nat) : list nat := dedup_go [] l.

(** Repetition: positions reachable by iterating [f] from [i], in
    backtracking order (more iterations first when greedy).  An iteration
    that consumes nothing is not repeated, as in [sre]. *)
Fixpoint star_ends (greedy : bool) (f : nat -> list nat) (fuel i : nat) : list nat :=
  match fuel with
  | 0 => [i]
  | S fuel' =>
      let more := flat_map (fun j => if Nat.eqb j i then []
                                     else star_ends greedy f fuel' j) (f i) in
      if greedy then dedup (more ++ [i]) else dedup (i :: more)
  end.

Definition word_at (s : list ascii) (i : nat) : bool :=
  match nth_error s i with Some c => is_word c | None => false end.

Definition boundary (s : list ascii) (i : nat) : bool :=
  match i with
  | 0 => word_at s 0
  | S k => xorb (word_at s k) (word_at s i)
  end.

(** [ends fl r s i]: the end positions [j] such that [s[i:j]] matches [r],
    in the order a backtracking matcher tries them. *)
Fixpoint ends (fl : flags) (r : regex) (s : list ascii) (i : nat) : list nat :=
  match r with
  | Void => []
  | Eps => [i]
  | Chr c => match nth_error s i with
             | Some d => if chr_match fl c d then [S i] else []
             | None => []
             end
  | Any => match nth_error s i with
           | Some d => if dotall fl || negb (Ascii.eqb d nl) then [S i] else []
           | None => []
           end
  | Cls neg its => match nth_error s i with
                   | Some d => if cls_match fl neg its d then [S i] else []
                   | None => []
                   end
  | Seq r1 r2 => dedup (flat_map (ends fl r2 s) (ends fl r1 s i))
  | Alt r1 r2 => dedup (ends fl r1 s i ++ ends fl r2 s i)
  | Star g r1 => star_ends g (ends fl r1 s) (S (length s)) i
  | WordB => if boundary s i then [i] else []
  end.

(** Scan start positions [i, i+1, ..., i+k]: the leftmost match. *)
Fixpoint search_go (fl : flags) (r : regex) (s : list ascii) (i k : nat)
  : option (nat * nat) :=
  match ends fl r s i with
  | j :: _ => Some (i, j)
  | [] => match k with 0 => None | S k' => search_go fl r s (S i) k' end
  end.

Definition search_at (fl : flags) (r : regex) (s : list ascii) (pos : nat) :=
  search_go fl r s pos (length s - pos).

(** [re.search(pattern, text, flags) is not None]. *)
Definition search (fl : flags) (r : regex) (text : string) : bool :=
  match search_at fl r (list_ascii_of_string text) 0 with
  | Some _ => true
  | None => false
  end.

(** [re.finditer]: successive leftmost matches, each search resuming at the
    end of the previous match (one further after an empty match). *)
Fixpoint finditer_go (fl : flags) (r : regex) (s : list ascii) (pos fuel : nat)
  : list (nat * nat) :=
  match fuel with
  | 0 => []
  | S fuel' =>
      if (length s <? pos)%nat then [] else
      match search_at fl r s pos with
      | None => []
      | Some (i, j) =>
          (i, j) :: finditer_go fl r s (if Nat.eqb i j then S j else j) fuel'
      end
  end.

Definition finditer (fl : flags) (r : regex) (text : string) : list (nat * nat) :=
  let s := list_ascii_of_string text in finditer_go fl r s 0 (S (S (length s))).

(** *** Pattern syntax

    A parser for the pattern strings of the source (raw strings, so a
    backslash reaches the regex engine): literals, [.], escapes [\s \w \b \n]
    and escaped punctuation, classes [[...]] and [[^...]] with ranges,
    groups, [|], and the quantifiers [*], [+], [?], [{n,}] with their lazy
    [?] forms. *)

Definition escape (e : ascii) : regex :=
  if Ascii.eqb e "s" then Cls false [CSpace]
  else if Ascii.eqb e "w" then Cls false [CWord]
  else if Ascii.eqb e "b" then WordB
  else if Ascii.eqb e "n" then Chr nl
  else Chr e.

Definition class_escape (e : ascii) : cls_item :=
  if Ascii.eqb e "s" then CSpace
  else if Ascii.eqb e "w" then CWord
  else if Ascii.eqb e "n" then CChar nl
  else CChar e.

Fixpoint p_class (s : list ascii) (acc : list cls_item)
  : option (list cls_item * list ascii) :=
  match s with
  | [] => None
  | c :: rest =>
      if Ascii.eqb c "]" then Some (rev acc, rest)
      else if Ascii.eqb c "\" then
        match rest with
        | e :: rest' => p_class rest' (class_escape e :: acc)
        | [] => None
        end
      else
        match rest with
        | m :: hi :: rest' =>
            if Ascii.eqb m "-" && negb (Ascii.eqb hi "]")
            then p_class rest' (CRange c hi :: acc)
            else p_class rest (CChar c :: acc)
        | _ => p_class rest (CChar c :: acc)
        end
  end.

Fixpoint p_num (s : list ascii) (acc : nat) : nat * list ascii :=
  match s with
  | c :: rest => if is_digit c then p_num rest (acc * 10 + (nat_of_ascii c - 48))%nat
                 else (acc, s)
  | [] => (acc, s)
  end.

(** A trailing [?] makes a quantifier lazy. *)
Definition p_greedy (s : list ascii) : bool * list ascii :=
  match s with
  | c :: rest => if Ascii.eqb c "?" then (false, rest) else (true, s)
  | [] => (true, s)
  end.

Fixpoint rep (n : nat) (a tail : regex) : regex :=
  match n with 0 => tail | S m => Seq a (rep m a tail) end.

Definition p_quant (a : regex) (s : list ascii) : regex * list ascii :=
  match s with
  | c :: rest =>
      if Ascii.eqb c "*" then let (g, r) := p_greedy rest in (Star g a, r)
      else if Ascii.eqb c "+" then let (g, r) := p_greedy rest in (Seq a (Star g a), r)
      else if Ascii.eqb c "?" then
        let (g, r) := p_greedy rest in (if g then Alt a Eps else Alt Eps a, r)
      else if Ascii.eqb c "{" then
        match rest with
        | d :: _ =>
            if is_digit d then
              match p_num rest 0 with
              | (n, cm :: cl :: r) =>
                  if Ascii.eqb cm "," && Ascii.eqb cl "}" then
                    let (g, r') := p_greedy r in (rep n a (Star g a), r')
                  else (a, s)
              | _ => (a, s)
              end
            else (a, s)
        | [] => (a, s)
        end
      else (a, s)
  | [] => (a, s)
  end.

Definition special (c : ascii) : bool :=
  existsb (Ascii.eqb c) ["*"; "+"; "?"; ")"; "|"]%char.

Fixpoint p_alt (fuel : nat) (s : list ascii) : option (regex * list ascii) :=
  match fuel with
  | 0 => None
  | S f =>
      match p_seq f s with
      | Some (r, c :: rest) =>
          if Ascii.eqb c "|" then
            match p_alt f rest with
            | Some (r2, rest2) => Some (Alt r r2, rest2)
            | None => None
            end
          else Some (r, c :: rest)
      | o => o
      end
  end
with p_seq (fuel : nat) (s : list ascii) : option (regex * list ascii) :=
  match fuel with
  | 0 => None
  | S f =>
      match s with
      | [] => Some (Eps, [])
      | c :: _ =>
          if Ascii.eqb c "|" || Ascii.eqb c ")" then Some (Eps, s) else
          match p_atom f s with
          | Some (a, rest) =>
              let (a', rest') := p_quant a rest in
              match p_seq f rest' with
              | Some (r, rest'') => Some (Seq a' r, rest'')
              | None => None
              end
          | None => None
          end
      end
  end
with p_atom (fuel : nat) (s : list ascii) : option (regex * list ascii) :=
  match fuel with
  | 0 => None
  | S f =>
      match s with
      | [] => None
      | c :: rest =>
          if Ascii.eqb c "(" then
            match p_alt f rest with
            | Some (r, cl :: rest') => if Ascii.eqb cl ")" then Some (r, rest') else None
            | _ => None
            end
          else if Ascii.eqb c "[" then
            match rest with
            | c2 :: rest2 =>
                if Ascii.eqb c2 "^" then
                  option_map (fun p => (Cls true (fst p), snd p)) (p_class rest2 [])
                else option_map (fun p => (Cls false (fst p), snd p)) (p_class rest [])
            | [] => None
            end
          else if Ascii.eqb c "." then Some (Any, rest)
          else if Ascii.eqb c "\" then
            match rest with
            | e :: rest' => Some (escape e, rest')
            | [] => None
            end
          else if special c then None
          else Some (Chr c, rest)
      end
  end.

Definition parse (p : string) : option regex :=
  let s := list_ascii_of_string p in
  match p_alt (4 * length s + 4) s with
  | Some (r, []) => Some r
  | _ => None
  end.

(** A pattern string compiled to a regex ([Void] if it does not parse; every
    pattern of the analyser parses, see [patterns_parse]). *)
Definition rx (p : string) : regex :=
  match parse p with Some r => r | None => Void end.

(** The double quote, which a Rocq string literal cannot hold on its own. *)
Definition dq : string := String (ascii_of_nat 34) EmptyString.

End Re.

(** ** Pattern matcher: [run_static_analysis] *)

Module Static.
Import Re.

(** [code.split("\n")]. *)
Fixpoint split_nl (s : string) : list string :=
  match s with
  | EmptyString => [EmptyString]
  | String c s' =>
      if Ascii.eqb c nl then EmptyString :: split_nl s'
      else match split_nl s' with
           | l :: ls => String c l :: ls
           | [] => [String c EmptyString]
           end
  end.

(** [[i+1 for i, line in enumerate(lines) if P(line)]]. *)
Fixpoint enum_from (P : string -> bool) (ls : list string) (i : nat) : list nat :=
  match ls with
  | [] => []
  | l :: ls' => if P l then S i :: enum_from P ls' (S i) else enum_from P ls' (S i)
  end.

Definition matching_lines (P : string -> bool) (code : string) : list nat :=
  enum_from P (split_nl code) 0.

(** The loop of the SQL and path-traversal rules:
    [for pattern in patterns: if re.search(pattern, code, docfl):
       matching_lines = [... if re.search(pattern, line, linefl)];
       if matching_lines: vulnerabilities.append(...); break]. *)
Fixpoint pattern_loop (docfl linefl : flags) (pats : list regex) (cap : nat)
    (mkf : list nat -> finding) (code : string) : list finding :=
  match pats with
  | [] => []
  | p :: ps =>
      if search docfl p code then
        match matching_lines (search linefl p) code with
        | [] => pattern_loop docfl linefl ps cap mkf code
        | ml => [mkf (firstn cap ml)]
        end
      else pattern_loop docfl linefl ps cap mkf code
  end.

(** The shape of the single-check rules:
    [if cond: matching_lines = [... if P(line)];
       if matching_lines: vulnerabilities.append(...)]. *)
Definition guarded (cond : bool) (P : string -> bool) (cap : nat)
    (mkf : list nat -> finding) (code : string) : list finding :=
  if cond then
    match matching_lines P code with
    | [] => []
    | ml => [mkf (firstn cap ml)]
    end
  else [].

(** [code[:start].count('\n') + 1]. *)
Definition line_of (s : list ascii) (start : nat) : nat :=
  S (count_occ ascii_dec (firstn start s) nl).

(** The loop of the hard-coded secret rule, on [re.finditer]. *)
Fixpoint secret_loop (pats : list regex) (mkf : list nat -> finding) (code : string)
  : list finding :=
  match pats with
  | [] => []
  | p :: ps =>
      match finditer FI p code with
      | [] => secret_loop ps mkf code
      | ms =>
          match map (fun m => line_of (list_ascii_of_string code) (fst m)) (firstn 3 ms) with
          | [] => secret_loop ps mkf code
          | ml => [mkf ml]
          end
      end
  end.

Definition path_traversal_patterns : list regex :=
  [ rx ("open\s*\(\s*f[\" ++ dq ++ "\'][^\n\" ++ dq ++ "\']*\{[^}]+\}[^\n\" ++ dq
        ++ "\']*[\" ++ dq ++ "\']\s*,");
    rx ("open\s*\(\s*[\" ++ dq ++ "\'][^\n\" ++ dq ++ "\']*[\" ++ dq
        ++ "\']\s*\+\s*\w+\s*,") ].

Definition sql_injection_patterns : list regex :=
  [ rx ("execute\s*\(\s*f[" ++ dq ++ "\'].*?(SELECT|INSERT|UPDATE|DELETE)");
    rx ("execute\s*\(\s*[" ++ dq ++ "\'].*?\{.*?(SELECT|INSERT|UPDATE|DELETE)");
    rx "(SELECT|INSERT|UPDATE|DELETE).*?\+.*?" ].

Definition secret_patterns : list regex :=
  [ rx ("(API_KEY|TOKEN|PASSWORD|SECRET)\s*=\s*[" ++ dq ++ "\'][^" ++ dq
        ++ "\'\n]{10,}[" ++ dq ++ "\']");
    rx ("(api_key|token|password|secret)\s*:\s*[" ++ dq ++ "\'][^" ++ dq
        ++ "\'\n]{10,}[" ++ dq ++ "\']") ].

Definition re_eval := rx "\beval\s*\(".
Definition re_child_exec := rx "child_process\.exec\s*\(".
Definition re_os_system := rx "\bos\.system\s*\(".
Definition re_subprocess_shell := rx "subprocess\.run\s*\(.*shell\s*=\s*True".
Definition re_subprocess_run := rx "subprocess\.run\s*\(".
Definition re_requests_get := rx "requests\.get\s*\(".
Definition re_url := rx "user[_\w]*url|url".
Definition re_innerhtml := rx "innerHTML".
Definition re_pickle_loads := rx "pickle\.loads\s*\(".
Definition re_pickle_load := rx "pickle\.load\s*\(".
Definition re_md5_call := rx "hashlib\.md5\s*\(".
Definition re_md5 := rx "MD5".
Definition re_debug_flag := rx "\bDEBUG\b\s*=\s*True".
Definition re_debug_run := rx "app\.run\(.*debug\s*=\s*True".
Definition re_post_route := rx "@app\.route\(.*methods=\[.*'POST'.*\)".
Definition re_csrf := rx "csrf|csrf_token|csrf_protect".
Definition re_log_password := rx "logging\.info\s*\(.*password".
Definition re_log_token := rx "logging\.debug\s*\(.*api[_ ]?token".
Definition re_param_route := rx "@app\.route\([^)]*<\w+>[^)]*\)".
Definition re_auth := rx "auth|login|required_role|current_user|authorize|permission".

(** The rules, in the order of the source. *)

Definition sql_rule (code : string) : list finding :=
  pattern_loop FIS FI sql_injection_patterns 5
    (fun ml => mk "SQL Injection" "critical"
       "Dynamic SQL query with string concatenation detected." ml
       "Use prepared statements or parameterized queries.") code.

Definition secret_rule (code : string) : list finding :=
  secret_loop secret_patterns
    (fun ml => mk "Hardcoded Secret" "critical"
       "Hardcoded credentials found in source code." ml
       "Use environment variables or secret managers.") code.

Definition eval_rule (code : string) : list finding :=
  guarded (search F0 re_eval code) (search F0 re_eval) 3
    (fun ml => mk "Arbitrary Code Execution (eval)" "critical"
       "Use of eval() allows arbitrary code execution." ml
       "Avoid eval(). Use JSON.parse or safe parsing libraries.") code.

Definition exec_rule (code : string) : list finding :=
  guarded (search F0 re_child_exec code) (Py.contains "child_process.exec") 3
    (fun ml => mk "Command Injection (exec)" "critical"
       "child_process.exec can allow remote command execution." ml
       "Use execFile or safe command execution.") code.

Definition os_system_rule (code : string) : list finding :=
  guarded (search F0 re_os_system code) (search F0 re_os_system) 3
    (fun ml => mk "Command Injection (os.system)" "high"
       "os.system() executes shell commands unsafely." ml
       "Use subprocess.run with argument lists.") code.

Definition subprocess_rule (code : string) : list finding :=
  guarded (search F0 re_subprocess_shell code) (search F0 re_subprocess_run) 3
    (fun ml => mk "Command Injection (subprocess)" "critical"
       "subprocess.run called with shell=True can allow command injection." ml
       "Use subprocess.run with a list of args and shell=False.") code.

Definition ssrf_rule (code : string) : list finding :=
  guarded (search F0 re_requests_get code && search F0 re_url code)
    (Py.contains "requests.get") 3
    (fun ml => mk "SSRF" "high"
       "External HTTP request using user-controlled URL may lead to SSRF." ml
       "Validate and whitelist remote URLs before fetching.") code.

Definition xss_rule (code : string) : list finding :=
  guarded (search FI re_innerhtml code) (Py.contains "innerHTML") 3
    (fun ml => mk "Cross-Site Scripting (XSS)" "high"
       "Direct assignment to innerHTML with user data can cause XSS." ml
       "Use textContent or proper escaping.") code.

Definition pickle_rule (code : string) : list finding :=
  guarded (search F0 re_pickle_loads code || search F0 re_pickle_load code)
    (Py.contains "pickle") 3
    (fun ml => mk "Insecure Deserialization (pickle)" "critical"
       "Deserializing untrusted data with pickle can execute arbitrary code." ml
       "Avoid pickle.loads on untrusted input; use safe formats.") code.

Definition md5_rule (code : string) : list finding :=
  guarded (search F0 re_md5_call code || search FI re_md5 code)
    (fun line => Py.contains "md5" (Py.lower line)) 3
    (fun ml => mk "Weak Cryptography (MD5)" "medium"
       "MD5 is weak for password hashing." ml
       "Use bcrypt or argon2 for password hashing.") code.

Definition debug_rule (code : string) : list finding :=
  guarded (search F0 re_debug_flag code || search F0 re_debug_run code)
    (fun line => Py.contains "DEBUG" line || Py.contains "debug=" line) 3
    (fun ml => mk "Debug mode enabled" "high"
       "Application running with debug mode enabled exposes internals." ml
       "Disable debug mode in production.") code.

Definition csrf_rule (code : string) : list finding :=
  if search F0 re_post_route code then
    if negb (search FI re_csrf code) then
      guarded true (Py.contains "@app.route") 3
        (fun ml => mk "Missing CSRF Protection" "medium"
           "POST endpoint without CSRF protection." ml
           "Implement CSRF tokens or same-site cookies.") code
    else []
  else [].

Definition logging_rule (code : string) : list finding :=
  guarded (search FI re_log_password code || search FI re_log_token code)
    (fun line => Py.contains "logging." (Py.lower line)) 3
    (fun ml => mk "Sensitive Data Logging" "medium"
       "Logging sensitive information like passwords or tokens." ml
       "Avoid logging secrets; mask or remove sensitive fields.") code.

Definition path_rule (code : string) : list finding :=
  pattern_loop FI FI path_traversal_patterns 3
    (fun ml => mk "Path Traversal" "high"
       "File path built from untrusted input may allow path traversal (e.g., ../) to access arbitrary files." ml
       "Validate and normalize file paths, enforce an allowlist, and prevent directory traversal (e.g., reject '..').") code.

Definition idor_finding (ml : list nat) : finding :=
  mk "IDOR (missing authorization)" "high"
    "Endpoint exposes resource identifiers without authorization checks (IDOR)." ml
    "Enforce authorization checks for resource access.".

Definition idor_rule (code : string) : list finding :=
  if search F0 re_param_route code then
    if negb (search FI re_auth code) then
      guarded true (Py.contains "@app.route") 3 idor_finding code
    else []
  else [].

Definition rules : list (string -> list finding) :=
  [sql_rule; secret_rule; eval_rule; exec_rule; os_system_rule; subprocess_rule;
   ssrf_rule; xss_rule; pickle_rule; md5_rule; debug_rule; csrf_rule;
   logging_rule; path_rule; idor_rule].

(** [run_static_analysis(code)]: every rule appends its finding, if any, to
    [vulnerabilities] in this order. *)
Definition run_static_analysis (code : string) : list finding :=
  flat_map (fun rule => rule code) rules.

End Static.

(** ** Corroboration filter, merge and canonicalisation
    (the nested functions and loops of [analyze_code_security]) *)

Module Pipeline.
Import Re.

(** [v.get("issue", "")] (an absent key reads as [""]). *)
Definition get_issue (v : finding) : string := Py.or_empty (issue v).

Definition noisy_categories : list string :=
  ["missing_input_validation"; "missing input validation"; "missing authentication";
   "missing_authentication"; "weak_password_hashing"; "weak password"].

Definition re_sql_fstring := rx ("f\s*" ++ dq ++ ".*select").
Definition re_plus_quote := rx ("\+\s*['\" ++ dq ++ "]").
Definition re_format := rx "format\s*\(".
Definition re_command := rx "subprocess\.run\s*\(|os\.system\s*\(|child_process\.exec".
Definition re_secret_assign := rx ("(api_key|token|password|secret)\s*=\s*[" ++ dq ++ "\']").

(** [verify_ai_finding(v, code_text)]. *)
Definition verify_ai_finding (v : finding) (code_text : string) : bool :=
  let issue := Py.lower (Py.or_empty (issue v)) in
  let txt := Py.lower code_text in
  let has k := Py.contains k issue in
  if existsb has noisy_categories then false
  else if has "sql" || has "sql_injection" then
    search FI re_sql_fstring code_text || search F0 re_plus_quote code_text
    || search F0 re_format code_text
  else if has "command" || has "subprocess" || has "os.system" then
    search F0 re_command code_text
  else if has "pickle" || has "deserial" then Py.contains "pickle" txt
  else if has "eval" || has "arbitrary code" then Py.contains "eval(" txt
  else if has "xss" || has "innerhtml" then Py.contains "innerhtml" txt
  else if has "ssrf" then Py.contains "requests.get" txt || Py.contains "requests.post" txt
  else if has "hardcod" || has "secret" || has "api_key" then
    search FI re_secret_assign code_text
  else if has "idor" then search F0 Static.re_param_route code_text
  else if has "csrf" then search F0 Static.re_post_route code_text
  else if has "path" && (has "travers" || has "traversal") then
    existsb (fun p => search FI p code_text) Static.path_traversal_patterns
  else false.

(** The issue text under which the merge loop deduplicates:
    [v.get("issue", "").lower()]. *)
Definition issue_name (v : finding) : string := Py.lower (get_issue v).

(** The two variables the merge loop updates. *)
Record merge_state := MergeState { all_vulns : list finding; seen : list string }.

(** One iteration of [for v in ai_vulns: ...]. *)
Definition merge_step (code : string) (st : merge_state) (v : finding) : merge_state :=
  let name := issue_name v in
  if Py.mem name (seen st) then st
  else if verify_ai_finding v code then MergeState (all_vulns st ++ [v]) (name :: seen st)
  else st.

(** [all_vulns = static_vulns.copy()], [static_issue_names = {...}], then the
    loop over the external findings. *)
Definition merge (heur ext : list finding) (code : string) : list finding :=
  all_vulns (fold_left (merge_step code) ext (MergeState heur (map issue_name heur))).

(** *** [canonicalize_issue] *)

Definition is_slug_char (c : ascii) : bool :=
  let n := nat_of_ascii c in ((97 <=? n) && (n <=? 122))%nat || is_digit c.

(** [re.sub(r"[^a-z0-9]+", "_", s)]: every maximal run of characters outside
    [a-z0-9] becomes one underscore ([in_run] is set inside such a run). *)
Fixpoint sub_runs (s : string) (in_run : bool) : string :=
  match s with
  | EmptyString => EmptyString
  | String c s' =>
      if is_slug_char c then String c (sub_runs s' false)
      else if in_run then sub_runs s' true
      else String "_" (sub_runs s' true)
  end.

Fixpoint lstrip_us (s : string) : string :=
  match s with
  | EmptyString => EmptyString
  | String c s' => if Ascii.eqb c "_" then lstrip_us s' else s
  end.

(** Removal of the trailing underscores: a character stays unless it is an
    underscore and everything after it is stripped away. *)
Fixpoint rstrip_us (s : string) : string :=
  match s with
  | EmptyString => EmptyString
  | String c s' =>
      let r := rstrip_us s' in
      if String.eqb r "" && Ascii.eqb c "_" then EmptyString else String c r
  end.

(** [.strip("_")]. *)
Definition strip_us (s : string) : string := rstrip_us (lstrip_us s).

Definition slug (s : string) : string := strip_us (sub_runs s false).

(** The ordered keyword rules; [None] when no rule fires. *)
Definition canonical_rule (s : string) : option string :=
  let has k := Py.contains k s in
  if has "sql" && has "inject" then Some "sql_injection"
  else if has "command" && has "inject" then Some "command_injection"
  else if has "subprocess" || has "os.system" || has "child_process.exec" then
    Some "command_injection"
  else if has "hardcod" || has "api key" || has "api_token" || has "api token"
          || has "secret" then Some "hardcoded_secrets"
  else if has "path traversal" || has "path_traversal" then Some "path_traversal"
  else if has "deserial" || has "pickle" || has "unsafe deserial" then
    Some "insecure_deserialization"
  else if has "md5" || has "weak crypt" || has "weak cryptography" then Some "weak_crypto"
  else if has "debug" && (has "mode" || has "debug") then Some "debug_enabled"
  else if has "xss" || has "innerhtml" || has "inner html" then Some "xss_vulnerability"
  else if has "ssrf" || has "requests.get" || has "user_url" then Some "ssrf_vulnerability"
  else if has "idor" || has "insecure direct object" then Some "idor_vulnerability"
  else if has "sensitive" && (has "log" || has "logging" || has "password") then
    Some "sensitive_data_exposure"
  else if has "csrf" then Some "csrf_vulnerability"
  else if has "eval" || has "arbitrary code" || has "code execution" then
    Some "command_injection"
  else None.

(** [canonicalize_issue(issue)]: [s = (issue or "").lower()], the rules, then
    [norm = re.sub(...).strip("_"); return norm or s]. *)
Definition canonicalize_issue (issue : string) : string :=
  let s := Py.lower issue in
  match canonical_rule s with
  | Some c => c
  | None => let norm := slug s in if String.eqb norm "" then s else norm
  end.

(** One iteration of [for v in all_vulns: orig = v.get("issue", "");
    v["original_issue"] = orig; v["issue"] = canonicalize_issue(orig)]. *)
Definition canonicalize_finding (v : finding) : finding :=
  let orig := get_issue v in
  {| issue := Some (canonicalize_issue orig);
     severity := severity v;
     explanation := explanation v;
     line_numbers := line_numbers v;
     fix_suggestion := fix_suggestion v;
     original_issue := Some orig |}.

Record result := Result {
  vulnerabilities : list finding;
  security_score : Z;
  risk_score : Z;
  risk_level : Scorer.risk }.

(** The deterministic part of [analyze_code_security], from the static
    findings, the parsed model findings and the code. *)
Definition analyze (heur ext : list finding) (code : string) : result :=
  let all := map canonicalize_finding (merge heur ext code) in
  Result all (Scorer.security_score all) (Scorer.total_penalty all) (Scorer.risk_level all).

(** The whole pipeline on the code, given the model's findings. *)
Definition analyze_code_security (code : string) (ext : list finding) : result :=
  analyze (Static.run_static_analysis code) ext code.

End Pipeline.

(** ** Definitions used by the statements *)

Module Claims.
Import Re Static Pipeline.

(** The merge as the specification words it: the heuristic findings, then
    each external finding in input order whose lowered issue text is not yet
    seen and which the corroboration filter accepts; an accepted finding's
    issue text joins the seen set. *)
Fixpoint spec_accepted (seen : list string) (ext : list finding) (code : string)
  : list finding :=
  match ext with
  | [] => []
  | v :: ext' =>
      let name := issue_name v in
      if Py.mem name seen then spec_accepted seen ext' code
      else if verify_ai_finding v code then v :: spec_accepted (name :: seen) ext' code
      else spec_accepted seen ext' code
  end.

(** The categories [verify_ai_finding] knows: the conditions of its branches
    other than the unconditional rejection of the noisy ones. *)
Definition known_category (issue : string) : bool :=
  let has k := Py.contains k issue in
  has "sql" || has "sql_injection"
  || has "command" || has "subprocess" || has "os.system"
  || has "pickle" || has "deserial"
  || has "eval" || has "arbitrary code"
  || has "xss" || has "innerhtml"
  || has "ssrf"
  || has "hardcod" || has "secret" || has "api_key"
  || has "idor" || has "csrf"
  || has "path" && (has "travers" || has "traversal").

(** Characters of a canonical slug: [a-z0-9_]. *)
Definition slug_or_us (c : ascii) : bool := is_slug_char c || Ascii.eqb c "_".

(** The rule keywords of [canonicalize_issue] that contain an underscore and
    so can appear inside a fallback slug. *)
Definition underscore_keywords : list string := ["api_token"; "user_url"; "path_traversal"].

(** The authorisation keywords of the IDOR rule, lower-case. *)
Definition auth_keywords : list string :=
  ["auth"; "login"; "required_role"; "current_user"; "authorize"; "permission"].

(** [k] occurs in [s] ignoring ASCII case ([k] lower-case). *)
Definition contains_ci (k s : string) : bool := Py.contains k (Py.lower s).

(** The SQL keywords of the third SQL pattern, lower-case. *)
Definition sql_keywords : list string := ["select"; "insert"; "update"; "delete"].

(** A literal sequence of characters followed by [r], as the parser builds
    it. *)
Fixpoint lits (k : list ascii) (r : regex) : regex :=
  match k with
  | [] => r
  | c :: k' => Seq (Chr c) (lits k' r)
  end.

(** An alternation of literal words, as the parser builds [w1|w2|...]. *)
Fixpoint alt_lits (ks : list string) : regex :=
  match ks with
  | [] => Void
  | [k] => lits (list_ascii_of_string k) Eps
  | k :: ks' => Alt (lits (list_ascii_of_string k) Eps) (alt_lits ks')
  end.

(** [k] matches [s] at position [i], character by character under [fl]. *)
Definition match_at (fl : flags) (k s : list ascii) (i : nat) : Prop :=
  forall idx c, nth_error k idx = Some c ->
    exists d, nth_error s (i + idx) = Some d /\ chr_match fl c d = true.

(** [k] occurs verbatim in [s] at position [i]. *)
Definition exact_at (k s : list ascii) (i : nat) : Prop :=
  forall idx c, nth_error k idx = Some c -> nth_error s (i + idx) = Some c.

(** The keywords the rules of [canonicalize_issue] look for. *)
Definition rule_keywords : list string :=
  ["sql"; "inject"; "command"; "subprocess"; "os.system"; "child_process.exec";
   "hardcod"; "api key"; "api_token"; "api token"; "secret"; "path traversal";
   "path_traversal"; "deserial"; "pickle"; "unsafe deserial"; "md5"; "weak crypt";
   "weak cryptography"; "debug"; "mode"; "xss"; "innerhtml"; "inner html"; "ssrf";
   "requests.get"; "user_url"; "idor"; "insecure direct object"; "sensitive"; "log";
   "logging"; "password"; "csrf"; "eval"; "arbitrary code"; "code execution"].

(** The canonical ids the rules return. *)
Definition canonical_ids : list string :=
  ["sql_injection"; "command_injection"; "hardcoded_secrets"; "path_traversal";
   "insecure_deserialization"; "weak_crypto"; "debug_enabled"; "xss_vulnerability";
   "ssrf_vulnerability"; "idor_vulnerability"; "sensitive_data_exposure";
   "csrf_vulnerability"].

Definition starts_us (l : list ascii) : bool :=
  match l with c :: _ => Ascii.eqb c "_" | [] => false end.

(** Characters in [a-z0-9_], never two underscores in a row. *)
Fixpoint clean (l : list ascii) : bool :=
  match l with
  | [] => true
  | c :: l' => slug_or_us c && (negb (Ascii.eqb c "_") || negb (starts_us l')) && clean l'
  end.

Definition nlS : string := String nl EmptyString.

(** Concrete inputs. *)
Definition secret_code : string :=
  "API_KEY = " ++ dq ++ "sk-1234567890abcdefghijklmnopqrstuvwxyz" ++ dq.
Definition split_sql_code : string :=
  "cursor.execute(f" ++ dq ++ nlS ++ "SELECT * FROM t" ++ dq ++ ")".
Definition plus_code : string := "count = deleted + 1".
Definition eval_code : string := "eval(user_input)".
Definition route_code : string :=
  "@app.route('/items/<item_id>')" ++ nlS ++ "def get_item(item_id):".
Definition empty_finding : finding := mkFinding None None "" [] "" None.

End Claims.

(** ** Retrieval and the report of [analyze_code_security] *)

Module Rag.

(** One element of [retrievals]: [{"id": ids[i], "text": d}]. *)
Record retrieval := Retrieval { rid : string; text : string }.

(** The two keys of the vector-store query result that
    [retrieve_security_docs] reads; each holds one list per query
    embedding.  [None] is an absent key. *)
Record query_result := QueryResult {
  documents : option (list (list string));
  ids : option (list (list string)) }.

(** An element of [SECURITY_LOG]; [time] is the reading of [time.time()]. *)
Record log_entry := LogEntry { input : string; results : list retrieval; time : Z }.

(** [res[key][0] if key in res else []]; [None] is the [IndexError] of an
    empty list under a present key. *)
Definition first_or_empty (x : option (list (list string))) : option (list string) :=
  match x with
  | None => Some []
  | Some l => hd_error l
  end.

(** [for i, d in enumerate(docs): retrievals.append({"id": ids[i], "text": d})]
    from index [i] on; [None] is the [IndexError] of [ids[i]]. *)
Fixpoint pair_from (idl docs : list string) (i : nat) : option (list retrieval) :=
  match docs with
  | [] => Some []
  | d :: ds =>
      match nth_error idl i with
      | None => None
      | Some id =>
          match pair_from idl ds (S i) with
          | None => None
          | Some rs => Some (Retrieval id d :: rs)
          end
      end
  end.

(** [retrieve_security_docs(collection, code, k)] once [collection.query]
    has answered [res]: the retrievals and [SECURITY_LOG] with its new entry,
    or [None] when the function raises (the log is then left as it was). *)
Definition retrieve_security_docs (res : query_result) (code : string) (now : Z)
    (log : list log_entry) : option (list retrieval * list log_entry) :=
  match first_or_empty (documents res) with
  | None => None
  | Some docs =>
      match first_or_empty (ids res) with
      | None => None
      | Some idl =>
          match pair_from idl docs 0 with
          | None => None
          | Some rs => Some (rs, (log ++ [LogEntry (substring 0 200 code) rs now])%list)
          end
      end
  end.

End Rag.

Module Report.
Import Rag Pipeline.

(** The keys of the model's parsed JSON reply that the code reads. *)
Record parsed := Parsed {
  p_vulnerabilities : option (list finding);
  p_summary : option string }.

(** The dict [parsed] built when neither the reply nor the repaired reply
    parses; its ["risk_score"] and ["evidence_ids"] are never read. *)
Definition fallback (static_vulns : list finding) : parsed :=
  Parsed (Some static_vulns) (Some "Analysis completed with static findings only.").

(** [{"id": r["id"], "snippet": r["text"][:300]}]. *)
Record evidence := Evidence { sid : string; snippet : string }.

(** The returned dict: the scored findings, then ["summary"],
    ["evidence_ids"] and ["evidence_snippets"]. *)
Record report := MkReport {
  core : result;
  summary : string;
  evidence_ids : list string;
  evidence_snippets : list evidence }.

(** [analyze_code_security(code)] of [app/core/Agents/security_agent.py]:
    [res] is the answer of the vector store, [now] the clock, [log] the
    [SECURITY_LOG] before the call, and [reply] the model's parsed reply
    ([None] when neither the reply nor the repaired reply parses).  [None]
    is an exception raised by the retrieval. *)
Definition analyze_code_security (res : query_result) (now : Z) (log : list log_entry)
    (reply : option parsed) (code : string) : option (report * list log_entry) :=
  let static_vulns := Static.run_static_analysis code in
  match retrieve_security_docs res code now log with
  | None => None
  | Some (rag_docs, log') =>
      let p := match reply with Some p => p | None => fallback static_vulns end in
      let ai_vulns := match p_vulnerabilities p with Some l => l | None => [] end in
      Some (MkReport (analyze static_vulns ai_vulns code)
              (match p_summary p with Some s => s | None => "Security analysis completed." end)
              (map rid rag_docs)
              (map (fun r => Evidence (rid r) (substring 0 300 (text r))) rag_docs),
            log')
  end.

End Report.

(** ** The legacy agent [app/core/security_agent.py]

    The module the API router imports.  Its pattern matcher has the first
    five rules of the current one, with a hard-coded secret reported as
    ["high"]; its merge has no corroboration filter; its score counts risk
    points. *)

Module Legacy.
Import Re Static Pipeline.

(** The hard-coded secret rule, severity ["high"]. *)
Definition secret_rule (code : string) : list finding :=
  secret_loop secret_patterns
    (fun ml => mk "Hardcoded Secret" "high"
       "Hardcoded credentials found in source code." ml
       "Use environment variables or secret managers.") code.

(** The SQL, eval, [child_process.exec] and [os.system] rules are the
    current ones, character for character. *)
Definition rules : list (string -> list finding) :=
  [Static.sql_rule; secret_rule; Static.eval_rule; Static.exec_rule; Static.os_system_rule].

(** [run_static_analysis(code)]. *)
Definition run_static_analysis (code : string) : list finding :=
  flat_map (fun rule => rule code) rules.

(** One iteration of [for v in ai_vulns: issue_name = v.get("issue", "").lower();
    if issue_name not in static_issue_names: all_vulns.append(v);
    static_issue_names.add(issue_name)]. *)
Definition merge_step (st : merge_state) (v : finding) : merge_state :=
  let name := issue_name v in
  if Py.mem name (seen st) then st
  else MergeState ((all_vulns st ++ [v])%list) (name :: seen st).

Definition merge (heur ext : list finding) : list finding :=
  all_vulns (fold_left merge_step ext (MergeState heur (map issue_name heur))).

(** [severity_points = {"critical": 25, "high": 15, "medium": 8, "low": 3}]. *)
Definition severity_points : list (string * Z) :=
  [("critical", 25%Z); ("high", 15%Z); ("medium", 8%Z); ("low", 3%Z)].

(** [v.get("severity", "low").lower()]; [None] is an absent key. *)
Definition points_key (v : finding) : string :=
  Py.lower (match severity v with Some s => s | None => "low" end).

Definition points (v : finding) : Z :=
  Scorer.dict_get severity_points (points_key v) 3%Z.

(** [total_risk_points = sum(...)]. *)
Fixpoint total_risk_points (vs : list finding) : Z :=
  match vs with
  | [] => 0%Z
  | v :: vs' => (points v + total_risk_points vs')%Z
  end.

(** [round(security_score, 1)] in tenths, where [security_score] is [100.0]
    for no risk points and [max(0.0, 100.0 - (total_risk_points * 0.8))]
    otherwise.  The float [100.0 - t * 0.8] differs from the exact
    [(1000 - 8 t) / 10] by less than [1e-12] for every integer [t] of the
    range where it is positive, and the exact value is a multiple of [0.2],
    so rounding to one decimal gives the exact value. *)
Definition security_score_tenths (vs : list finding) : Z :=
  let t := total_risk_points vs in
  if (t =? 0)%Z then 1000%Z else Z.max 0 (1000 - 8 * t)%Z.

(** The [if/elif] chain on the unrounded score.  The float score equals the
    exact one at the thresholds 80, 60 and 40 ([t] = 25, 50, 75, where
    [t * 0.8] is exact) and is within [1e-12] of a multiple of [0.2]
    elsewhere, so each comparison agrees with the exact one. *)
Definition risk_level (vs : list finding) : Scorer.risk :=
  let s := security_score_tenths vs in
  if (800 <=? s)%Z then Scorer.RLow
  else if (600 <=? s)%Z then Scorer.RMedium
  else if (400 <=? s)%Z then Scorer.RHigh
  else Scorer.RCritical.

(** The scored keys of the returned dict; [security_score] in tenths. *)
Record result := Result {
  vulnerabilities : list finding;
  score_tenths : Z;
  risk_score : Z;
  level : Scorer.risk }.

(** The deterministic part of the legacy [analyze_code_security]. *)
Definition analyze (heur ext : list finding) : result :=
  let all := merge heur ext in
  Result all (security_score_tenths all) (total_risk_points all) (risk_level all).

Definition analyze_code_security (code : string) (ext : list finding) : result :=
  analyze (run_static_analysis code) ext.

End Legacy.

(** ** Definitions used by the further statements *)

Module Tables.

(** The issue and severity of each rule of the current pattern matcher, in
    rule order. *)
Definition static_issues : list (string * string) :=
  [("SQL Injection", "critical"); ("Hardcoded Secret", "critical");
   ("Arbitrary Code Execution (eval)", "critical"); ("Command Injection (exec)", "critical");
   ("Command Injection (os.system)", "high"); ("Command Injection (subprocess)", "critical");
   ("SSRF", "high"); ("Cross-Site Scripting (XSS)", "high");
   ("Insecure Deserialization (pickle)", "critical"); ("Weak Cryptography (MD5)", "medium");
   ("Debug mode enabled", "high"); ("Missing CSRF Protection", "medium");
   ("Sensitive Data Logging", "medium"); ("Path Traversal", "high");
   ("IDOR (missing authorization)", "high")].

(** The same for the legacy pattern matcher. *)
Definition legacy_issues : list (string * string) :=
  [("SQL Injection", "critical"); ("Hardcoded Secret", "high");
   ("Arbitrary Code Execution (eval)", "critical"); ("Command Injection (exec)", "critical");
   ("Command Injection (os.system)", "high")].

(** The CSRF keywords of the rule's pattern [csrf|csrf_token|csrf_protect]. *)
Definition csrf_keywords : list string := ["csrf"; "csrf_token"; "csrf_protect"].

(** The lower-cased original issue text the canonicalisation loop records. *)
Definition original_name (v : finding) : string := Py.lower (Py.or_empty (original_issue v)).

(** The external findings the legacy merge appends when the names in
    [seen] are taken: those whose lower-cased issue text is not yet taken, in
    input order; each one takes its text. *)
Fixpoint fresh (seen : list string) (ext : list finding) : list finding :=
  match ext with
  | [] => []
  | v :: ext' =>
      if Py.mem (Pipeline.issue_name v) seen then fresh seen ext'
      else v :: fresh (Pipeline.issue_name v :: seen) ext'
  end.

(** Concrete inputs. *)
Definition noisy_finding : finding := mk "Missing Authentication" "high" "" [] "".
Definition post_code : string :=
  "@app.route('/pay', methods=['POST'])" ++ Claims.nlS ++ "def pay():".
Definition two_docs : Rag.query_result :=
  Rag.QueryResult (Some [["doc one"; "doc two"]]) (Some [["A1"; "A2"; "A3"]]).

End Tables.

(** ** Proofs *)

Module Proofs.
Import Re Static Pipeline Claims.
Local Open Scope list_scope.

(** *** Scorer *)

Lemma penalty_spec : forall v, Scorer.penalty v = Scorer.spec_penalty (severity v).
Proof.
  intros [i sev e l f o]; unfold Scorer.penalty, Scorer.severity_key, Scorer.spec_penalty;
    simpl.
  destruct sev as [s|]; [|reflexivity].
  destruct (String.eqb_spec s "") as [->|_]; [reflexivity|].
  simpl. repeat match goal with |- context [String.eqb ?a ?b] => destruct (String.eqb a b) end;
    reflexivity.
Qed.

Lemma total_penalty_app : forall vs ws,
  Scorer.total_penalty (vs ++ ws) = (Scorer.total_penalty vs + Scorer.total_penalty ws)%Z.
Proof.
  induction vs as [|v vs IH]; intros ws; simpl; [reflexivity|]. rewrite IH. lia.
Qed.

(** C1: the total penalty is the sum over the findings of the penalty of the
    severity (critical 80, high 55, medium 40, low 15, by lower-cased name,
    15 for any other or a missing severity); the score is
    [max(0, 100 - total)], and the risk level follows the thresholds
    80 / 60 / 40. *)
Theorem scorer_formula : forall vs : list finding,
  Scorer.total_penalty vs
    = fold_right (fun v acc => Scorer.spec_penalty (severity v) + acc)%Z 0%Z vs /\
  Scorer.security_score vs = Z.max 0 (100 - Scorer.total_penalty vs) /\
  (80 <= Scorer.security_score vs -> Scorer.risk_level vs = Scorer.RLow)%Z /\
  (60 <= Scorer.security_score vs < 80 -> Scorer.risk_level vs = Scorer.RMedium)%Z /\
  (40 <= Scorer.security_score vs < 60 -> Scorer.risk_level vs = Scorer.RHigh)%Z /\
  (Scorer.security_score vs < 40 -> Scorer.risk_level vs = Scorer.RCritical)%Z.
Proof.
  intros vs. split.
  { induction vs as [|v vs IH]; simpl; [reflexivity|]. rewrite IH, penalty_spec. reflexivity. }
  split; [reflexivity|].
  unfold Scorer.risk_level, Scorer.risk_level_of.
  generalize (Scorer.security_score vs); intros sc.
  repeat split; intros;
    repeat match goal with |- context [Z.leb ?a ?b] => destruct (Z.leb_spec a b) end;
    first [reflexivity | lia].
Qed.

(** C6: appending a critical finding lowers the score strictly, unless the
    score is already 0, where it stays 0. *)
Theorem critical_lowers_score : forall vs c s,
  severity c = Some s -> Py.lower s = "critical" ->
  (Scorer.security_score (vs ++ [c]) < Scorer.security_score vs \/
   (Scorer.security_score vs = 0 /\ Scorer.security_score (vs ++ [c]) = 0))%Z.
Proof.
  intros vs c s Hs Hl.
  assert (Hp : Scorer.penalty c = 80%Z).
  { rewrite penalty_spec, Hs. unfold Scorer.spec_penalty. rewrite Hl. reflexivity. }
  unfold Scorer.security_score. rewrite total_penalty_app. cbn [Scorer.total_penalty].
  rewrite Hp. lia.
Qed.

Lemma critical_lowers_score_witness :
  (severity (mk "x" "CRITICAL" "" [] "") = Some "CRITICAL" /\ Py.lower "CRITICAL" = "critical") /\
  (Scorer.security_score ([] ++ [mk "x" "CRITICAL" "" [] ""]) < Scorer.security_score [] \/
   (Scorer.security_score [] = 0 /\
    Scorer.security_score ([] ++ [mk "x" "CRITICAL" "" [] ""]) = 0))%Z.
Proof.
  split; [split; reflexivity|].
  apply (critical_lowers_score [] (mk "x" "CRITICAL" "" [] "") "CRITICAL"); reflexivity.
Defined.

(** *** Merge *)

Lemma merge_fold : forall code ext acc seen,
  all_vulns (fold_left (merge_step code) ext (MergeState acc seen))
    = (acc ++ spec_accepted seen ext code)%list.
Proof.
  intros code; induction ext as [|v ext IH]; intros acc seen; simpl.
  - rewrite app_nil_r. reflexivity.
  - unfold merge_step at 2; simpl.
    destruct (Py.mem (issue_name v) seen); [apply IH|].
    destruct (verify_ai_finding v code); [|apply IH].
    rewrite IH, <- app_assoc. reflexivity.
Qed.

Lemma merge_app : forall heur ext code,
  merge heur ext code = (heur ++ spec_accepted (map issue_name heur) ext code)%list.
Proof. intros. unfold merge. apply merge_fold. Qed.

Lemma spec_accepted_sound : forall code ext seen v,
  In v (spec_accepted seen ext code) -> In v ext /\ verify_ai_finding v code = true.
Proof.
  intros code; induction ext as [|w ext IH]; intros seen v Hin; simpl in Hin; [contradiction|].
  destruct (Py.mem (issue_name w) seen).
  - apply IH in Hin. simpl; tauto.
  - destruct (verify_ai_finding w code) eqn:E.
    + destruct Hin as [<-|Hin]; [simpl; tauto|]. apply IH in Hin. simpl; tauto.
    + apply IH in Hin. simpl; tauto.
Qed.

(** C2: the merged list is the heuristic findings followed by the external
    findings that [spec_accepted] keeps: in input order, those whose lowered
    issue text is not yet seen (seen starts as the heuristic issue texts and
    grows with every accepted finding) and that the corroboration filter
    accepts; every accepted finding is an external finding the filter
    accepts. *)
Theorem merge_spec : forall heur ext code,
  merge heur ext code = (heur ++ spec_accepted (map issue_name heur) ext code)%list /\
  Forall (fun v => In v ext /\ verify_ai_finding v code = true)
    (spec_accepted (map issue_name heur) ext code).
Proof.
  intros heur ext code. split; [apply merge_app|].
  apply Forall_forall. intros v Hv. eapply spec_accepted_sound; eauto.
Qed.

(** *** Corroboration filter *)

Lemma verify_unknown_false : forall v code,
  known_category (Py.lower (get_issue v)) = false -> verify_ai_finding v code = false.
Proof.
  intros v code H. unfold verify_ai_finding. unfold get_issue in H.
  unfold known_category in H. cbv zeta in *.
  generalize dependent (Py.lower (Py.or_empty (issue v))). intros i H.
  repeat match type of H with
         | (_ || _) = false => apply orb_false_elim in H; destruct H as [H ?]
         end.
  destruct (existsb (fun k => Py.contains k i) noisy_categories); [reflexivity|].
  repeat match goal with Hk : Py.contains ?k i = false |- _ => rewrite Hk; clear Hk end.
  simpl. match goal with Ha : (_ && _) = false |- _ => rewrite Ha end. reflexivity.
Qed.

(** C5: a candidate whose issue text (lower-cased, and [""] when the key is
    missing) matches none of the known categories, in particular a candidate
    with no [issue] key, is rejected by the filter, and is absent from the
    merged list unless it is itself one of the heuristic findings (the
    filter is a total function: it cannot raise). *)
Theorem unknown_finding_rejected : forall v code heur ext,
  issue v = None \/ known_category (Py.lower (get_issue v)) = false ->
  verify_ai_finding v code = false /\ (~ In v heur -> ~ In v (merge heur ext code)).
Proof.
  intros v code heur ext H.
  assert (Hv : verify_ai_finding v code = false).
  { apply verify_unknown_false. destruct H as [H|H]; [|exact H].
    unfold get_issue. rewrite H. reflexivity. }
  split; [exact Hv|].
  intros Hh Hin. rewrite merge_app in Hin. apply in_app_or in Hin as [Hin|Hin]; [tauto|].
  apply spec_accepted_sound in Hin. rewrite Hv in Hin. destruct Hin; discriminate.
Qed.

Lemma unknown_finding_rejected_witness :
  (issue empty_finding = None \/
   known_category (Py.lower (get_issue empty_finding)) = false) /\
  (verify_ai_finding empty_finding "x = 1" = false /\
   (~ In empty_finding [] -> ~ In empty_finding (merge [] [empty_finding] "x = 1"))).
Proof.
  split; [left; reflexivity|].
  apply (unknown_finding_rejected empty_finding "x = 1" [] [empty_finding]).
  left; reflexivity.
Defined.

(** *** Canonicalisation of the merged findings *)

(** C4 (counterexample): on [eval(user_input)] the pattern matcher emits the
    finding ["Arbitrary Code Execution (eval)"], and the final output holds
    it with its [issue] replaced by ["command_injection"]. *)
Lemma heuristic_issue_rewritten :
  map issue (run_static_analysis eval_code) = [Some "Arbitrary Code Execution (eval)"] /\
  map issue (vulnerabilities (analyze_code_security eval_code []))
    = [Some "command_injection"] /\
  map original_issue (vulnerabilities (analyze_code_security eval_code []))
    = [Some "Arbitrary Code Execution (eval)"].
Proof. vm_compute. repeat split. Qed.

(** C4 (amended): the [i]-th heuristic finding is the [i]-th finding of the
    final output, with the same severity, line numbers, explanation and fix
    suggestion; its [issue] is replaced by the canonical id of the original
    text, which is kept under [original_issue]. *)
Theorem heuristic_findings_kept : forall code ext i f,
  nth_error (run_static_analysis code) i = Some f ->
  nth_error (vulnerabilities (analyze_code_security code ext)) i
    = Some (canonicalize_finding f) /\
  severity (canonicalize_finding f) = severity f /\
  line_numbers (canonicalize_finding f) = line_numbers f /\
  explanation (canonicalize_finding f) = explanation f /\
  fix_suggestion (canonicalize_finding f) = fix_suggestion f /\
  issue (canonicalize_finding f) = Some (canonicalize_issue (get_issue f)) /\
  original_issue (canonicalize_finding f) = Some (get_issue f).
Proof.
  intros code ext i f H.
  split; [|repeat split].
  unfold analyze_code_security, analyze; cbn [vulnerabilities].
  rewrite nth_error_map, merge_app, nth_error_app1.
  - rewrite H. reflexivity.
  - apply nth_error_Some. rewrite H. discriminate.
Qed.

Lemma heuristic_findings_kept_witness :
  nth_error (run_static_analysis eval_code) 0
    = Some (hd empty_finding (run_static_analysis eval_code)) /\
  (nth_error (vulnerabilities (analyze_code_security eval_code [])) 0
     = Some (canonicalize_finding (hd empty_finding (run_static_analysis eval_code))) /\
   severity (canonicalize_finding (hd empty_finding (run_static_analysis eval_code)))
     = severity (hd empty_finding (run_static_analysis eval_code)) /\
   line_numbers (canonicalize_finding (hd empty_finding (run_static_analysis eval_code)))
     = line_numbers (hd empty_finding (run_static_analysis eval_code)) /\
   explanation (canonicalize_finding (hd empty_finding (run_static_analysis eval_code)))
     = explanation (hd empty_finding (run_static_analysis eval_code)) /\
   fix_suggestion (canonicalize_finding (hd empty_finding (run_static_analysis eval_code)))
     = fix_suggestion (hd empty_finding (run_static_analysis eval_code)) /\
   issue (canonicalize_finding (hd empty_finding (run_static_analysis eval_code)))
     = Some (canonicalize_issue (get_issue (hd empty_finding (run_static_analysis eval_code)))) /\
   original_issue (canonicalize_finding (hd empty_finding (run_static_analysis eval_code)))
     = Some (get_issue (hd empty_finding (run_static_analysis eval_code)))).
Proof.
  split; [vm_compute; reflexivity|].
  apply (heuristic_findings_kept eval_code [] 0
           (hd empty_finding (run_static_analysis eval_code))).
  vm_compute; reflexivity.
Defined.

(** *** Pattern matcher on concrete inputs *)

(** C7: [API_KEY = "sk-1234567890abcdefghijklmnopqrstuvwxyz"] yields a
    critical ["Hardcoded Secret"] finding (on line 1). *)
Theorem api_key_secret_detected :
  exists f, In f (run_static_analysis secret_code) /\
    issue f = Some "Hardcoded Secret" /\ severity f = Some "critical" /\
    line_numbers f = [1].
Proof.
  remember (run_static_analysis secret_code) as l eqn:E. vm_compute in E. subst l.
  eexists. split; [left; reflexivity|]. repeat split.
Qed.

(** C8 (counterexample): on [cursor.execute(f"] / [SELECT * FROM t")] the
    first SQL pattern matches the document (with [DOTALL]) but no single line,
    and the pattern matcher emits no finding at all, in particular no SQL
    Injection finding with an empty line list. *)
Lemma split_match_no_finding :
  search FIS (hd Void sql_injection_patterns) split_sql_code = true /\
  matching_lines (search FI (hd Void sql_injection_patterns)) split_sql_code = [] /\
  run_static_analysis split_sql_code = [].
Proof. vm_compute. repeat split. Qed.

(** C3 (counterexample): the empty issue text canonicalises to the empty
    string (not a non-empty slug), and ["user url"] canonicalises to the slug
    ["user_url"], which itself canonicalises to ["ssrf_vulnerability"], so
    canonicalisation is not idempotent there. *)
Lemma canonicalize_counterexample :
  canonicalize_issue "" = "" /\
  canonicalize_issue "user url" = "user_url" /\
  canonicalize_issue (canonicalize_issue "user url") = "ssrf_vulnerability".
Proof. vm_compute. repeat split. Qed.

(** *** The regex engine *)

Lemma existsb_eqb_In : forall x l, existsb (Nat.eqb x) l = true <-> In x l.
Proof.
  intros x l. rewrite existsb_exists. split.
  - intros [y [Hy E]]. apply Nat.eqb_eq in E. subst. exact Hy.
  - intros H. exists x. split; [exact H | apply Nat.eqb_refl].
Qed.

Lemma dedup_go_In : forall l seen x, In x (dedup_go seen l) <-> In x l /\ ~ In x seen.
Proof.
  induction l as [|a l IH]; intros seen x; simpl; [tauto|].
  destruct (existsb (Nat.eqb a) seen) eqn:E.
  - apply existsb_eqb_In in E. rewrite IH. split; [tauto|].
    intros [[<-|H] Hn]; [contradiction | auto].
  - assert (Hna : ~ In a seen) by (intros H; apply existsb_eqb_In in H; congruence).
    simpl. rewrite IH. simpl. split.
    + intros [<-|[H1 H2]]; [auto | split; [auto | tauto]].
    + intros [[<-|H1] H2]; [left; reflexivity|].
      destruct (Nat.eq_dec a x) as [<-|Hne]; [left; reflexivity|].
      right. split; [exact H1|]. intros [E'|E']; [congruence | contradiction].
Qed.

Lemma dedup_In : forall l x, In x (dedup l) <-> In x l.
Proof. intros l x. unfold dedup. rewrite dedup_go_In. simpl. tauto. Qed.

Lemma ends_seq : forall fl r1 r2 s i j,
  In j (ends fl (Seq r1 r2) s i) <-> exists k, In k (ends fl r1 s i) /\ In j (ends fl r2 s k).
Proof.
  intros. cbn [ends]. rewrite dedup_In, in_flat_map. split; intros [k [H1 H2]]; eauto.
Qed.

Lemma ends_alt : forall fl r1 r2 s i j,
  In j (ends fl (Alt r1 r2) s i) <-> In j (ends fl r1 s i) \/ In j (ends fl r2 s i).
Proof. intros. cbn [ends]. rewrite dedup_In. apply in_app_iff. Qed.

Lemma ends_chr : forall fl c s i j,
  In j (ends fl (Chr c) s i) <->
  exists d, nth_error s i = Some d /\ chr_match fl c d = true /\ j = S i.
Proof.
  intros. cbn [ends]. destruct (nth_error s i) as [d|].
  - destruct (chr_match fl c d) eqn:E; simpl.
    + split; [intros [<-|[]]; eauto | intros [d' [Hd [Hm ->]]]; auto].
    + split; [intros [] | intros [d' [Hd [Hm ->]]]; injection Hd as ->; congruence].
  - simpl. split; [intros [] | intros [d' [Hd _]]; discriminate].
Qed.

Lemma ends_any : forall fl s i d,
  nth_error s i = Some d -> d <> nl -> In (S i) (ends fl Any s i).
Proof.
  intros fl s i d Hd Hn. cbn [ends]. rewrite Hd.
  destruct (Ascii.eqb_spec d nl) as [E|_]; [contradiction|].
  rewrite orb_true_r. left; reflexivity.
Qed.

Lemma star_self : forall g f fuel i, In i (star_ends g f fuel i).
Proof.
  intros g f [|fuel] i; simpl; [left; reflexivity|].
  destruct g; apply dedup_In; [apply in_or_app; right; left; reflexivity | left; reflexivity].
Qed.

Lemma star_step : forall g f fuel i k j,
  In k (f i) -> k <> i -> In j (star_ends g f fuel k) -> In j (star_ends g f (S fuel) i).
Proof.
  intros g f fuel i k j Hk Hne Hj. simpl.
  assert (H : In j (flat_map (fun j0 => if Nat.eqb j0 i then [] else star_ends g f fuel j0) (f i))).
  { apply in_flat_map. exists k. split; [exact Hk|].
    destruct (Nat.eqb_spec k i); [contradiction | exact Hj]. }
  destruct g; apply dedup_In; [apply in_or_app; left; exact H | right; exact H].
Qed.

Lemma star_run : forall g f n fuel i,
  n <= fuel -> (forall x, i <= x < i + n -> In (S x) (f x)) ->
  In (i + n) (star_ends g f fuel i).
Proof.
  intros g f; induction n as [|n IH]; intros fuel i Hn Hf.
  - rewrite Nat.add_0_r. apply star_self.
  - destruct fuel as [|fuel]; [lia|].
    apply star_step with (k := S i); [apply Hf; lia | lia|].
    replace (i + S n) with (S i + n) by lia.
    apply IH; [lia|]. intros x Hx. apply Hf. lia.
Qed.

Lemma lits_ends : forall fl k r s i j,
  In j (ends fl (lits k r) s i) <-> match_at fl k s i /\ In j (ends fl r s (i + length k)).
Proof.
  intros fl; induction k as [|c k IH]; intros r s i j; cbn [lits length].
  - rewrite Nat.add_0_r. split; [|tauto]. intros H; split; [|exact H].
    intros [|idx] c H'; discriminate.
  - rewrite ends_seq. split.
    + intros [m [Hm Hj]]. apply ends_chr in Hm as [d [Hd [Hc ->]]].
      apply IH in Hj as [Ha Hj]. split.
      * intros [|idx] c' H'; simpl in H'.
        -- injection H' as <-. exists d. rewrite Nat.add_0_r. auto.
        -- destruct (Ha idx c' H') as [d' Hd']. exists d'.
           replace (i + S idx) with (S i + idx) by lia. exact Hd'.
      * replace (i + S (length k)) with (S i + length k) by lia. exact Hj.
    + intros [Ha Hj]. destruct (Ha 0 c eq_refl) as [d [Hd Hc]].
      rewrite Nat.add_0_r in Hd. exists (S i). split.
      * apply ends_chr. eauto.
      * apply IH. split.
        -- intros idx c' H'. destruct (Ha (S idx) c' H') as [d' Hd']. exists d'.
           replace (S i + idx) with (i + S idx) by lia. exact Hd'.
        -- replace (S i + length k) with (i + S (length k)) by lia. exact Hj.
Qed.

Lemma alt_lits_ends : forall fl ks s i j,
  In j (ends fl (alt_lits ks) s i) <->
  exists k, In k ks /\ match_at fl (list_ascii_of_string k) s i /\
            j = i + length (list_ascii_of_string k).
Proof.
  intros fl; induction ks as [|k ks IH]; intros s i j.
  - simpl. split; [intros [] | intros [k [[] _]]].
  - destruct ks as [|k' ks'].
    + cbn [alt_lits]. rewrite lits_ends. cbn [ends]. split.
      * intros [Ha [<-|[]]]. exists k. simpl; auto.
      * intros [k0 [[<-|[]] [Ha ->]]]. split; [exact Ha | left; reflexivity].
    + change (alt_lits (k :: k' :: ks'))
        with (Alt (lits (list_ascii_of_string k) Eps) (alt_lits (k' :: ks'))).
      rewrite ends_alt, lits_ends, IH. cbn [ends]. split.
      * intros [[Ha [<-|[]]] | [k0 [Hk0 Hr]]]; [exists k; simpl; auto|].
        exists k0. split; [right; exact Hk0 | exact Hr].
      * intros [k0 [[<-|Hk0] [Ha ->]]]; [left; split; [exact Ha | left; reflexivity]|].
        right. exists k0. auto.
Qed.

(** [search] is true exactly when some start position has a match. *)
Lemma search_go_sound : forall fl r s k i a b,
  search_go fl r s i k = Some (a, b) -> i <= a <= i + k /\ In b (ends fl r s a).
Proof.
  intros fl r s; induction k as [|k IH]; intros i a b H; simpl in H;
    destruct (ends fl r s i) as [|j l] eqn:E.
  - discriminate.
  - injection H as <- <-. rewrite E. split; [lia | left; reflexivity].
  - apply IH in H. split; [lia | tauto].
  - injection H as <- <-. rewrite E. split; [lia | left; reflexivity].
Qed.

Lemma search_go_complete : forall fl r s k i m j,
  i <= m <= i + k -> In j (ends fl r s m) -> exists a b, search_go fl r s i k = Some (a, b).
Proof.
  intros fl r s; induction k as [|k IH]; intros i m j Hm Hj; simpl;
    destruct (ends fl r s i) as [|j' l] eqn:E; eauto.
  - replace m with i in Hj by lia. rewrite E in Hj. destruct Hj.
  - destruct (Nat.eq_dec m i) as [->|Hne]; [rewrite E in Hj; destruct Hj|].
    apply (IH (S i) m j); [lia | exact Hj].
Qed.

Lemma search_iff : forall fl r text,
  search fl r text = true <->
  exists i j, i <= length (list_ascii_of_string text) /\
              In j (ends fl r (list_ascii_of_string text) i).
Proof.
  intros fl r text. unfold search, search_at. split.
  - destruct (search_go _ _ _ _ _) as [[a b]|] eqn:E; [|discriminate]. intros _.
    apply search_go_sound in E. exists a, b. split; [lia | tauto].
  - intros [i [j [Hi Hj]]].
    destruct (search_go_complete fl r (list_ascii_of_string text)
                (length (list_ascii_of_string text) - 0) 0 i j) as [a [b E]];
      [lia | exact Hj|].
    rewrite E. reflexivity.
Qed.

(** *** Strings and substrings *)

Lemma las_app : forall s t,
  list_ascii_of_string (s ++ t)%string = list_ascii_of_string s ++ list_ascii_of_string t.
Proof. induction s as [|a s IH]; intros t; simpl; [reflexivity | now rewrite IH]. Qed.

Lemma las_lower : forall s,
  list_ascii_of_string (Py.lower s) = map Py.lower_char (list_ascii_of_string s).
Proof. induction s as [|a s IH]; simpl; [reflexivity | now rewrite IH]. Qed.

Lemma prefix_list : forall k s,
  prefix k s = true <-> exists t, list_ascii_of_string s = list_ascii_of_string k ++ t.
Proof.
  induction k as [|a k IH]; intros [|b s]; simpl.
  - split; eauto.
  - split; eauto.
  - split; [discriminate | intros [t H]; discriminate].
  - destruct (ascii_dec a b) as [<-|Hne].
    + rewrite IH. split; intros [t H]; exists t; [now rewrite H | now injection H].
    + split; [discriminate | intros [t H]; injection H; congruence].
Qed.

Lemma contains_list : forall k s,
  Py.contains k s = true <->
  exists p t, list_ascii_of_string s = p ++ list_ascii_of_string k ++ t.
Proof.
  intros k; induction s as [|a s IH]; cbn [Py.contains]; rewrite orb_true_iff, prefix_list.
  - split.
    + intros [[t H]|H]; [exists [], t; exact H | discriminate].
    + intros [p [t H]]. left. exists t. destruct p; [exact H | discriminate].
  - rewrite IH. split.
    + intros [[t H]|[p [t H]]]; [exists [], t; exact H|].
      exists (a :: p), t. simpl. now rewrite H.
    + intros [[|b p] [t H]]; [left; exists t; exact H|].
      right. simpl in H. injection H as -> H. exists p, t. exact H.
Qed.

Lemma nth_error_app_len : forall (a b : list ascii) x,
  nth_error (a ++ b) (length a + x) = nth_error b x.
Proof. induction a as [|c a IH]; intros b x; simpl; [reflexivity | apply IH]. Qed.

Lemma nth_error_app_prefix : forall (k t : list ascii) idx c,
  nth_error k idx = Some c -> nth_error (k ++ t) idx = Some c.
Proof.
  induction k as [|a k IH]; intros t [|idx] c H; simpl in *; try discriminate; auto.
Qed.

Lemma exact_at_app : forall p k t, exact_at k (p ++ k ++ t) (length p).
Proof.
  intros p k t idx c H. rewrite nth_error_app_len. now apply nth_error_app_prefix.
Qed.

Lemma exact_at_prefix : forall k s, exact_at k s 0 -> exists t, s = k ++ t.
Proof.
  induction k as [|c k IH]; intros s H; [exists s; reflexivity|].
  destruct s as [|d s]; [specialize (H 0 c eq_refl); discriminate|].
  specialize (H 0 c eq_refl) as Hc. simpl in Hc. injection Hc as ->.
  destruct (IH s) as [t ->]; [|exists t; reflexivity].
  intros idx c' H'. apply (H (S idx) c' H').
Qed.

Lemma exact_at_split : forall i k s, k <> [] -> exact_at k s i ->
  exists p t, s = p ++ k ++ t /\ length p = i.
Proof.
  induction i as [|i IH]; intros k s Hk H.
  - destruct (exact_at_prefix k s H) as [t ->]. exists [], t. auto.
  - destruct k as [|c k]; [contradiction|].
    destruct s as [|d s]; [specialize (H 0 c eq_refl); discriminate|].
    destruct (IH (c :: k) s) as [p [t [-> Hp]]]; [discriminate | |].
    + intros idx c' H'. apply (H idx c' H').
    + exists (d :: p), t. simpl. auto.
Qed.

Lemma contains_exact : forall k s, k <> "" ->
  Py.contains k s = true <-> exists i, exact_at (list_ascii_of_string k) (list_ascii_of_string s) i.
Proof.
  intros k s Hk. rewrite contains_list. split.
  - intros [p [t E]]. exists (length p). rewrite E. apply exact_at_app.
  - intros [i H]. apply exact_at_split in H as [p [t [E _]]]; [eauto|].
    destruct k; [contradiction | discriminate].
Qed.

Lemma chr_match_F0 : forall c d, chr_match F0 c d = true <-> c = d.
Proof. intros. apply Ascii.eqb_eq. Qed.

Lemma match_at_F0 : forall k s i, match_at F0 k s i <-> exact_at k s i.
Proof.
  intros k s i; split.
  - intros H idx c Hc. destruct (H idx c Hc) as [d [Hd E]].
    apply chr_match_F0 in E. now subst.
  - intros H idx c Hc. exists c. split; [now apply H | now apply chr_match_F0].
Qed.

Lemma match_at_icase : forall fl k s i, icase fl = true ->
  (match_at fl k s i <-> exact_at (map Py.lower_char k) (map Py.lower_char s) i).
Proof.
  intros fl k s i Hf. split.
  - intros H idx c Hc. rewrite nth_error_map in Hc.
    destruct (nth_error k idx) as [c0|] eqn:E0; [|discriminate]. injection Hc as <-.
    destruct (H idx c0 E0) as [d [Hd E]]. unfold chr_match in E. rewrite Hf in E. apply Ascii.eqb_eq in E.
    rewrite nth_error_map, Hd. simpl. now rewrite E.
  - intros H idx c Hc. specialize (H idx (Py.lower_char c)).
    rewrite nth_error_map, Hc, nth_error_map in H. specialize (H eq_refl).
    destruct (nth_error s (i + idx)) as [d|]; [|discriminate]. injection H as E.
    exists d. split; [reflexivity|]. unfold chr_match. rewrite Hf. apply Ascii.eqb_eq. now rewrite E.
Qed.

Lemma match_at_bound : forall fl k s i, k <> [] -> match_at fl k s i -> i < length s.
Proof.
  intros fl [|c k] s i Hk H; [contradiction|].
  destruct (H 0 c eq_refl) as [d [Hd _]]. rewrite Nat.add_0_r in Hd.
  apply nth_error_Some. congruence.
Qed.

(** An alternation of lower-case words under [IGNORECASE] is found exactly
    when one of the words occurs in the lowered text. *)
Lemma search_alt_lits_icase : forall fl ks code, icase fl = true ->
  Forall (fun k => k <> "" /\ Py.lower k = k) ks ->
  search fl (alt_lits ks) code = true <-> exists k, In k ks /\ contains_ci k code = true.
Proof.
  intros fl ks code Hf Hks. rewrite search_iff. split.
  - intros [i [j [Hi Hj]]]. apply alt_lits_ends in Hj as [k [Hk [Ha _]]].
    exists k. split; [exact Hk|].
    rewrite Forall_forall in Hks. destruct (Hks k Hk) as [Hne Hl].
    unfold contains_ci. apply contains_exact; [exact Hne|]. exists i.
    rewrite las_lower. rewrite match_at_icase in Ha by exact Hf.
    rewrite <- las_lower, Hl in Ha. exact Ha.
  - intros [k [Hk Hc]].
    rewrite Forall_forall in Hks. destruct (Hks k Hk) as [Hne Hl].
    unfold contains_ci in Hc. apply contains_exact in Hc as [i Hi]; [|exact Hne].
    assert (Ha : match_at fl (list_ascii_of_string k) (list_ascii_of_string code) i).
    { rewrite match_at_icase by exact Hf. rewrite <- las_lower, Hl, <- las_lower. exact Hi. }
    exists i, (i + length (list_ascii_of_string k)). split.
    + apply Nat.lt_le_incl. apply (match_at_bound fl (list_ascii_of_string k)); [|exact Ha].
      destruct k; [contradiction | discriminate].
    + apply alt_lits_ends. eauto.
Qed.

(** *** Lines *)

Lemma split_nl_nonempty : forall s, split_nl s <> [].
Proof.
  destruct s as [|c s]; simpl; [discriminate|].
  destruct (Ascii.eqb c nl); [discriminate|]. destruct (split_nl s); discriminate.
Qed.

Lemma first_line_prefix : forall k s t,
  (forall c, In c (list_ascii_of_string k) -> c <> nl) ->
  list_ascii_of_string s = list_ascii_of_string k ++ t ->
  exists l ls, split_nl s = l :: ls /\ prefix k l = true.
Proof.
  induction k as [|c k IH]; intros s t Hk E.
  - destruct (split_nl s) as [|l ls] eqn:Es; [now apply split_nl_nonempty in Es|].
    exists l, ls. split; [reflexivity|]. destruct l; reflexivity.
  - destruct s as [|d s]; [discriminate|]. simpl in E. injection E as -> E.
    destruct (IH s t) as [l [ls [Es Hp]]]; [intros c' H'; apply Hk; right; exact H' | exact E|].
    simpl. assert (Hc : Ascii.eqb c nl = false).
    { apply Ascii.eqb_neq. apply Hk. left. reflexivity. }
    rewrite Hc, Es. exists (String c l), ls. split; [reflexivity|].
    simpl. destruct (ascii_dec c c); [exact Hp | contradiction].
Qed.

Lemma contains_cons : forall k a s, Py.contains k s = true -> Py.contains k (String a s) = true.
Proof. intros k a s H. cbn [Py.contains]. rewrite H. apply orb_true_r. Qed.

(** A word without a newline that occurs in the text occurs in one of its
    lines. *)
Lemma contains_line : forall k s,
  (forall c, In c (list_ascii_of_string k) -> c <> nl) ->
  Py.contains k s = true -> exists l, In l (split_nl s) /\ Py.contains k l = true.
Proof.
  intros k s Hk H. apply contains_list in H as [p [t E]]. revert s E.
  induction p as [|a p IH]; intros s E.
  - destruct (first_line_prefix k s t Hk E) as [l [ls [Es Hp]]].
    exists l. rewrite Es. split; [left; reflexivity|].
    destruct l; cbn [Py.contains]; rewrite Hp; reflexivity.
  - destruct s as [|b s]; [discriminate|]. simpl in E. injection E as -> E.
    destruct (IH s E) as [l [Hl Hc]]. simpl.
    destruct (Ascii.eqb a nl); [exists l; split; [right; exact Hl | exact Hc]|].
    destruct (split_nl s) as [|l0 ls] eqn:Es; [destruct Hl|].
    destruct Hl as [->|Hl].
    + exists (String a l). split; [left; reflexivity | now apply contains_cons].
    + exists l. split; [right; exact Hl | exact Hc].
Qed.

Lemma enum_from_nonnil : forall P ls i l,
  In l ls -> P l = true -> enum_from P ls i <> [].
Proof.
  intros P; induction ls as [|a ls IH]; intros i l Hl Hp; [destruct Hl|].
  simpl. destruct (P a) eqn:Ea; [discriminate|].
  destruct Hl as [<-|Hl]; [congruence | exact (IH (S i) l Hl Hp)].
Qed.

Lemma matching_lines_contains : forall k code,
  (forall c, In c (list_ascii_of_string k) -> c <> nl) ->
  Py.contains k code = true -> matching_lines (Py.contains k) code <> [].
Proof.
  intros k code Hk H. destruct (contains_line k code Hk H) as [l [Hl Hc]].
  exact (enum_from_nonnil _ _ 0 l Hl Hc).
Qed.

(** *** Pattern matcher: the generic shape of the rules *)

Lemma guarded_some : forall cond P cap mkf code,
  cond = true -> matching_lines P code <> [] ->
  guarded cond P cap mkf code = [mkf (firstn cap (matching_lines P code))].
Proof.
  intros cond P cap mkf code -> H. unfold guarded.
  destruct (matching_lines P code); [contradiction | reflexivity].
Qed.

Lemma guarded_out : forall cond P cap mkf code f,
  In f (guarded cond P cap mkf code) ->
  exists ml, f = mkf ml /\ ml = firstn cap (matching_lines P code) /\ matching_lines P code <> [].
Proof.
  intros cond P cap mkf code f H. unfold guarded in H.
  destruct cond; [|destruct H].
  destruct (matching_lines P code) as [|n ml] eqn:E; [destruct H|].
  destruct H as [<-|[]]. eexists; split; [reflexivity | split; [reflexivity | discriminate]].
Qed.

Lemma pattern_loop_out : forall docfl linefl pats cap mkf code f,
  In f (pattern_loop docfl linefl pats cap mkf code) ->
  exists p ml, f = mkf ml /\ ml = firstn cap (matching_lines (search linefl p) code)
               /\ matching_lines (search linefl p) code <> [].
Proof.
  intros docfl linefl; induction pats as [|p ps IH]; intros cap mkf code f H; [destruct H|].
  simpl in H. destruct (search docfl p code); [|eauto].
  destruct (matching_lines (search linefl p) code) as [|n ml] eqn:E; [eauto|].
  destruct H as [<-|[]]. exists p. eexists.
  split; [reflexivity | split; [rewrite E; reflexivity | rewrite E; discriminate]].
Qed.

Lemma secret_loop_out : forall pats mkf code f,
  In f (secret_loop pats mkf code) -> exists ml, f = mkf ml /\ ml <> [].
Proof.
  induction pats as [|p ps IH]; intros mkf code f H; [destruct H|].
  simpl in H. destruct (finditer FI p code) as [|m ms]; [eauto|].
  destruct H as [<-|[]]. eexists; split; [reflexivity | discriminate].
Qed.

Lemma firstn_nonnil : forall (cap : nat) (l : list nat), 0 < cap -> l <> [] -> firstn cap l <> [].
Proof. intros [|cap] [|x l] H1 H2; simpl; try lia; try contradiction; discriminate. Qed.

(** A secret pattern with a document-level match always ends the loop with a
    finding: the line numbers come from the match positions. *)
Lemma secret_loop_hit : forall pats mkf code,
  (exists p, In p pats /\ finditer FI p code <> []) ->
  exists ml, ml <> [] /\ secret_loop pats mkf code = [mkf ml].
Proof.
  induction pats as [|p ps IH]; intros mkf code [q [Hq Hm]]; [destruct Hq|].
  simpl. destruct (finditer FI p code) as [|m ms] eqn:E.
  - destruct Hq as [<-|Hq]; [contradiction|]. apply IH. eauto.
  - cbn [firstn map]. eexists; split; [|reflexivity]. discriminate.
Qed.

Lemma secret_rule_in_analysis : forall code f,
  In f (secret_rule code) -> In f (run_static_analysis code).
Proof.
  intros code f H. apply in_flat_map. exists secret_rule. split; [simpl; tauto | exact H].
Qed.

(** *** The third SQL pattern *)

Lemma sql3_shape : nth 2 sql_injection_patterns Void =
  Seq (alt_lits ["SELECT"; "INSERT"; "UPDATE"; "DELETE"])
      (Seq (Star false Any) (Seq (Chr "+") (Seq (Star false Any) Eps))).
Proof. vm_compute. reflexivity. Qed.

Lemma re_auth_shape : re_auth = alt_lits auth_keywords.
Proof. vm_compute. reflexivity. Qed.

Lemma re_param_route_shape :
  exists X, re_param_route = lits (list_ascii_of_string "@app.route") X.
Proof. eexists. reflexivity. Qed.

Lemma chr_match_refl : forall fl c, chr_match fl c c = true.
Proof. intros [[|] d] c; unfold chr_match; simpl; apply Ascii.eqb_refl. Qed.

Lemma length_lower : forall s,
  length (list_ascii_of_string (Py.lower s)) = length (list_ascii_of_string s).
Proof. intros s. rewrite las_lower. apply length_map. Qed.

Lemma sql_keyword_upper : forall kw, In (Py.lower kw) sql_keywords ->
  exists u, In u ["SELECT"; "INSERT"; "UPDATE"; "DELETE"] /\ Py.lower u = Py.lower kw.
Proof.
  intros kw Hk. simpl in Hk.
  destruct Hk as [E|[E|[E|[E|[]]]]]; rewrite <- E;
    [exists "SELECT" | exists "INSERT" | exists "UPDATE" | exists "DELETE"];
    (split; [simpl; tauto | reflexivity]).
Qed.

(** Under [IGNORECASE], the third SQL pattern matches every text with an SQL
    keyword (in any case, anywhere, also inside a word) followed on the same
    line by a [+]. *)
Lemma sql3_matches : forall fl pre kw mid post, icase fl = true ->
  In (Py.lower kw) sql_keywords ->
  (forall c, In c (list_ascii_of_string mid) -> c <> nl) ->
  search fl (nth 2 sql_injection_patterns Void) (pre ++ kw ++ mid ++ "+" ++ post)%string = true.
Proof.
  intros fl pre kw mid post Hf Hk Hm. rewrite sql3_shape. apply search_iff.
  rewrite !las_app.
  set (P := list_ascii_of_string pre). set (K := list_ascii_of_string kw).
  set (M := list_ascii_of_string mid). set (T := list_ascii_of_string post).
  change (list_ascii_of_string "+") with ["+"%char].
  set (L := P ++ K ++ M ++ ["+"%char] ++ T).
  exists (length P), (S (length P + length K + length M)). split.
  { unfold L. rewrite !length_app. lia. }
  apply ends_seq. exists (length P + length K). split.
  - destruct (sql_keyword_upper kw Hk) as [u [Hu El]].
    apply alt_lits_ends. exists u. split; [exact Hu|]. split.
    + rewrite match_at_icase by exact Hf. rewrite <- las_lower, El, las_lower.
      unfold L. rewrite !map_app. fold K.
      rewrite <- (length_map Py.lower_char P). apply exact_at_app.
    + rewrite <- length_lower, El, length_lower. reflexivity.
  - apply ends_seq. exists (length P + length K + length M). split.
    + cbn [ends]. apply star_run.
      * unfold L. rewrite !length_app. lia.
      * intros x Hx.
        assert (Hn : nth_error L x = nth_error M (x - length P - length K)).
        { unfold L. rewrite app_assoc.
          replace x with (length (P ++ K) + (x - length P - length K))
            by (rewrite length_app; lia).
          rewrite nth_error_app_len.
          replace (length (P ++ K) + (x - length P - length K) - length P - length K)
            with (x - length P - length K) by (rewrite length_app; lia).
          apply nth_error_app1. lia. }
        destruct (nth_error M (x - length P - length K)) as [d|] eqn:Ed.
        -- apply ends_any with d; [congruence|]. apply Hm. eapply nth_error_In. exact Ed.
        -- apply nth_error_None in Ed. lia.
    + apply ends_seq. exists (S (length P + length K + length M)). split.
      * apply ends_chr. exists "+"%char. split; [|split; [apply chr_match_refl | reflexivity]].
        unfold L. rewrite app_assoc, app_assoc.
        replace (length P + length K + length M) with (length ((P ++ K) ++ M) + 0)
          by (rewrite !length_app; lia).
        rewrite nth_error_app_len. reflexivity.
      * apply ends_seq. exists (S (length P + length K + length M)).
        split; [apply star_self | left; reflexivity].
Qed.

(** C9: the line [count = deleted + 1] has no [execute] call and matches
    neither of the first two SQL patterns, yet the pattern matcher reports a
    critical SQL injection on line 1: the third SQL pattern matches any text
    with an SQL keyword (any case, also inside a longer word such as
    [deleted]) followed on the same line by a [+]. *)
Theorem sql_plus_false_positive :
  run_static_analysis plus_code =
    [mk "SQL Injection" "critical"
       "Dynamic SQL query with string concatenation detected." [1]
       "Use prepared statements or parameterized queries."] /\
  Py.contains "execute" (Py.lower plus_code) = false /\
  search FIS (nth 0 sql_injection_patterns Void) plus_code = false /\
  search FIS (nth 1 sql_injection_patterns Void) plus_code = false /\
  (forall fl pre kw mid post, icase fl = true ->
     In (Py.lower kw) sql_keywords ->
     (forall c, In c (list_ascii_of_string mid) -> c <> nl) ->
     search fl (nth 2 sql_injection_patterns Void) (pre ++ kw ++ mid ++ "+" ++ post)%string
       = true).
Proof.
  split; [vm_compute; reflexivity|].
  split; [vm_compute; reflexivity|].
  split; [vm_compute; reflexivity|].
  split; [vm_compute; reflexivity|].
  exact sql3_matches.
Qed.

(** *** The IDOR rule *)

Lemma no_nl_of : forall k,
  forallb (fun c => negb (Ascii.eqb c nl)) (list_ascii_of_string k) = true ->
  forall c, In c (list_ascii_of_string k) -> c <> nl.
Proof.
  intros k H c Hc E. rewrite forallb_forall in H. specialize (H c Hc).
  rewrite E, Ascii.eqb_refl in H. discriminate.
Qed.

Lemma auth_search : forall code,
  search FI re_auth code = true <-> exists k, In k auth_keywords /\ contains_ci k code = true.
Proof.
  intros code. rewrite re_auth_shape. apply search_alt_lits_icase; [reflexivity|].
  unfold auth_keywords. repeat apply Forall_cons; try apply Forall_nil;
    (split; [discriminate | reflexivity]).
Qed.

Lemma param_route_contains : forall code,
  search F0 re_param_route code = true -> Py.contains "@app.route" code = true.
Proof.
  intros code Hr. destruct re_param_route_shape as [X HX]. rewrite HX in Hr.
  apply search_iff in Hr as [i [j [_ Hj]]]. apply lits_ends in Hj as [Ha _].
  apply match_at_F0 in Ha. apply contains_exact; [discriminate | exists i; exact Ha].
Qed.

Ltac rule_output Hf :=
  first [ apply pattern_loop_out in Hf as [? [? [-> _]]]
        | apply secret_loop_out in Hf as [? [-> _]]
        | apply guarded_out in Hf as [? [-> _]] ].

(** Only the IDOR rule reports an IDOR finding. *)
Lemma idor_only : forall code f,
  In f (run_static_analysis code) -> issue f = Some "IDOR (missing authorization)" ->
  In f (idor_rule code).
Proof.
  intros code f H Hi. apply in_flat_map in H as [rule [Hr Hf]]. simpl in Hr.
  destruct Hr as [<-|[<-|[<-|[<-|[<-|[<-|[<-|[<-|[<-|[<-|[<-|[<-|[<-|[<-|[<-|[]]]]]]]]]]]]]]]];
    try exact Hf; exfalso;
    unfold sql_rule, secret_rule, eval_rule, exec_rule, os_system_rule, subprocess_rule,
      ssrf_rule, xss_rule, pickle_rule, md5_rule, debug_rule, csrf_rule, logging_rule,
      path_rule in Hf;
    [ rule_output Hf | rule_output Hf | rule_output Hf | rule_output Hf | rule_output Hf
    | rule_output Hf | rule_output Hf | rule_output Hf | rule_output Hf | rule_output Hf
    | rule_output Hf
    | destruct (search F0 re_post_route code), (negb (search FI re_csrf code));
      try destruct Hf; rule_output Hf
    | rule_output Hf | rule_output Hf ];
    discriminate Hi.
Qed.

(** C10: for a code with a parameterised route (the rule's route pattern
    matches), an IDOR finding is reported exactly when none of the
    authorisation keywords occurs, in any case, anywhere in the whole code. *)
Theorem idor_global_suppression : forall code,
  search F0 re_param_route code = true ->
  ((exists f, In f (run_static_analysis code) /\ issue f = Some "IDOR (missing authorization)")
   <-> ~ (exists k, In k auth_keywords /\ contains_ci k code = true)).
Proof.
  intros code Hr.
  assert (Hml : matching_lines (Py.contains "@app.route") code <> []).
  { apply matching_lines_contains; [apply no_nl_of; reflexivity|].
    apply param_route_contains. exact Hr. }
  split.
  - intros [f [Hf Hi]] Hk. apply idor_only in Hf; [|exact Hi].
    unfold idor_rule in Hf. rewrite Hr in Hf. apply auth_search in Hk.
    rewrite Hk in Hf. destruct Hf.
  - intros Hn. exists (idor_finding (firstn 3 (matching_lines (Py.contains "@app.route") code))).
    split; [|reflexivity].
    apply in_flat_map. exists idor_rule. split; [apply nth_error_In with 14; reflexivity|].
    unfold idor_rule. rewrite Hr.
    destruct (search FI re_auth code) eqn:Ea; [exfalso; apply Hn, auth_search; exact Ea|].
    cbn [negb]. rewrite guarded_some; [left; reflexivity | reflexivity | exact Hml].
Qed.

Lemma idor_global_suppression_witness :
  search F0 re_param_route route_code = true /\
  ((exists f, In f (run_static_analysis route_code) /\
              issue f = Some "IDOR (missing authorization)")
   <-> ~ (exists k, In k auth_keywords /\ contains_ci k route_code = true)).
Proof.
  split; [vm_compute; reflexivity|].
  apply idor_global_suppression. vm_compute. reflexivity.
Defined.

(** *** Line numbers of the pattern matcher's findings *)

Ltac rule_lines Hf :=
  first [ apply pattern_loop_out in Hf as [? [? [-> [-> ?]]]]
        | apply secret_loop_out in Hf as [? [-> ?]]
        | apply guarded_out in Hf as [? [-> [-> ?]]] ];
  cbn [line_numbers mk idor_finding];
  first [assumption | apply firstn_nonnil; [lia | assumption]].

(** C8 (amended): every finding of the pattern matcher has a non-empty list
    of line numbers; there is no empty-list fallback.  In the SQL and
    path-traversal loops a pattern that matches the document but no single
    line is skipped for the next pattern.  The single-check rules report
    nothing when their per-line test matches no line; for [eval] and
    [os.system] that test is the rule's own regex, for [child_process.exec]
    a substring test.  The hard-coded secret rule takes its line numbers
    from the match positions, so a document-level match of one of its
    patterns always gives a ["Hardcoded Secret"] finding, also when the
    match spans lines.  (The embedding is total: nothing raises.) *)
Theorem findings_have_lines : forall code,
  Forall (fun f => line_numbers f <> []) (run_static_analysis code) /\
  (forall docfl linefl p ps cap mkf,
     search docfl p code = true -> matching_lines (search linefl p) code = [] ->
     pattern_loop docfl linefl (p :: ps) cap mkf code
       = pattern_loop docfl linefl ps cap mkf code) /\
  (forall cond P cap mkf, matching_lines P code = [] -> guarded cond P cap mkf code = []) /\
  (matching_lines (search F0 re_eval) code = [] -> eval_rule code = []) /\
  (matching_lines (search F0 re_os_system) code = [] -> os_system_rule code = []) /\
  (matching_lines (Py.contains "child_process.exec") code = [] -> exec_rule code = []) /\
  ((exists p, In p secret_patterns /\ finditer FI p code <> []) ->
   exists f, In f (run_static_analysis code) /\ issue f = Some "Hardcoded Secret" /\
             line_numbers f <> []).
Proof.
  intros code.
  assert (Hg : forall cond P cap mkf, matching_lines P code = [] ->
                 guarded cond P cap mkf code = []).
  { intros cond P cap mkf Hl. unfold guarded. rewrite Hl. destruct cond; reflexivity. }
  split; [|split; [|split; [exact Hg|split; [|split; [|split]]]]].
  - apply Forall_forall. intros f H. apply in_flat_map in H as [rule [Hr Hf]]. simpl in Hr.
    destruct Hr as [<-|[<-|[<-|[<-|[<-|[<-|[<-|[<-|[<-|[<-|[<-|[<-|[<-|[<-|[<-|[]]]]]]]]]]]]]]]];
      unfold sql_rule, secret_rule, eval_rule, exec_rule, os_system_rule, subprocess_rule,
        ssrf_rule, xss_rule, pickle_rule, md5_rule, debug_rule, csrf_rule, logging_rule,
        path_rule, idor_rule in Hf;
      try (destruct (search F0 re_post_route code), (negb (search FI re_csrf code));
           try destruct Hf);
      try (destruct (search F0 re_param_route code), (negb (search FI re_auth code));
           try destruct Hf);
      rule_lines Hf.
  - intros docfl linefl p ps cap mkf Hd Hl. cbn [pattern_loop]. rewrite Hd, Hl. reflexivity.
  - intros Hl. unfold eval_rule. apply Hg, Hl.
  - intros Hl. unfold os_system_rule. apply Hg, Hl.
  - intros Hl. unfold exec_rule. apply Hg, Hl.
  - intros Hp. destruct (secret_loop_hit secret_patterns
      (fun ml => mk "Hardcoded Secret" "critical"
         "Hardcoded credentials found in source code." ml
         "Use environment variables or secret managers.") code Hp) as [ml [Hml He]].
    eexists. split; [apply secret_rule_in_analysis; unfold secret_rule; rewrite He; left;
                     reflexivity|].
    split; [reflexivity | exact Hml].
Qed.

(** *** The canonicaliser *)

Lemma lower_char_idem : forall c, Py.lower_char (Py.lower_char c) = Py.lower_char c.
Proof. intros [[] [] [] [] [] [] [] []]; reflexivity. Qed.

Lemma lower_idem : forall s, Py.lower (Py.lower s) = Py.lower s.
Proof. induction s as [|c s IH]; simpl; [reflexivity|]. now rewrite lower_char_idem, IH. Qed.

Lemma lower_char_slug : forall c, slug_or_us c = true -> Py.lower_char c = c.
Proof.
  intros [[] [] [] [] [] [] [] []] H; vm_compute in H |- *;
    first [reflexivity | discriminate H].
Qed.

Lemma lower_slug : forall x,
  forallb slug_or_us (list_ascii_of_string x) = true -> Py.lower x = x.
Proof.
  induction x as [|c x IH]; simpl; intros H; [reflexivity|].
  apply andb_true_iff in H as [Hc Hx]. now rewrite lower_char_slug, IH.
Qed.

Lemma contains_chars : forall k s c,
  Py.contains k s = true -> In c (list_ascii_of_string k) -> In c (list_ascii_of_string s).
Proof.
  intros k s c H Hc. apply contains_list in H as [p [t ->]].
  apply in_or_app. right. apply in_or_app. left. exact Hc.
Qed.

Lemma slug_us_not_slug : is_slug_char "_" = false.
Proof. reflexivity. Qed.

(** A word of [a-z0-9] at the start of [sub_runs t false] starts [t]. *)
Lemma sub_runs_prefix : forall K t q,
  forallb is_slug_char K = true ->
  list_ascii_of_string (sub_runs t false) = K ++ q ->
  exists q', list_ascii_of_string t = K ++ q'.
Proof.
  induction K as [|d K IH]; intros t q HK E; [exists (list_ascii_of_string t); reflexivity|].
  simpl in HK. apply andb_true_iff in HK as [Hd HK].
  destruct t as [|c t]; [discriminate|]. simpl in E.
  destruct (is_slug_char c) eqn:Hc.
  - simpl in E. injection E as -> E. destruct (IH t q HK E) as [q' Eq].
    exists q'. simpl. now rewrite Eq.
  - simpl in E. injection E as <- _. discriminate.
Qed.

(** A word of [a-z0-9] inside [sub_runs t b] occurs in [t]. *)
Lemma sub_runs_sub : forall K t b p q,
  forallb is_slug_char K = true ->
  list_ascii_of_string (sub_runs t b) = p ++ K ++ q ->
  exists p' q', list_ascii_of_string t = p' ++ K ++ q'.
Proof.
  intros K; induction t as [|c t IH]; intros b p q HK E.
  - exists [], []. simpl in E. destruct p, K; try discriminate. reflexivity.
  - simpl in E. destruct (is_slug_char c) eqn:Hc.
    + simpl in E. destruct p as [|a p].
      * destruct K as [|d K].
        -- exists [], (list_ascii_of_string (String c t)). reflexivity.
        -- simpl in E. injection E as -> E. simpl in HK. apply andb_true_iff in HK as [_ HK].
           destruct (sub_runs_prefix K t q HK E) as [q' Eq].
           exists [], q'. simpl. now rewrite Eq.
      * injection E as <- E. destruct (IH false p q HK E) as [p' [q' Eq]].
        exists (c :: p'), q'. simpl. now rewrite Eq.
    + destruct b.
      * destruct (IH true p q HK E) as [p' [q' Eq]].
        exists (c :: p'), q'. simpl. now rewrite Eq.
      * simpl in E. destruct p as [|a p].
        -- destruct K as [|d K].
           ++ exists [], (list_ascii_of_string (String c t)). reflexivity.
           ++ simpl in E. injection E as <- _. simpl in HK. discriminate HK.
        -- injection E as <- E. destruct (IH true p q HK E) as [p' [q' Eq]].
           exists (c :: p'), q'. simpl. now rewrite Eq.
Qed.

Lemma lstrip_suffix : forall x, exists p, list_ascii_of_string x = p ++ list_ascii_of_string (lstrip_us x).
Proof.
  induction x as [|c x IH]; simpl; [exists []; reflexivity|].
  destruct (Ascii.eqb c "_"); [destruct IH as [p Ep]; exists (c :: p); simpl; now rewrite Ep|].
  exists []; reflexivity.
Qed.

Lemma rstrip_prefix : forall x, exists q, list_ascii_of_string x = list_ascii_of_string (rstrip_us x) ++ q.
Proof.
  induction x as [|c x IH]; simpl; [exists []; reflexivity|].
  destruct IH as [q Eq].
  destruct (String.eqb (rstrip_us x) "" && Ascii.eqb c "_").
  - exists (c :: list_ascii_of_string x). reflexivity.
  - exists q. simpl. now rewrite Eq.
Qed.

Lemma strip_sub : forall x, exists p q,
  list_ascii_of_string x = p ++ list_ascii_of_string (strip_us x) ++ q.
Proof.
  intros x. destruct (lstrip_suffix x) as [p Ep].
  destruct (rstrip_prefix (lstrip_us x)) as [q Eq].
  exists p, q. unfold strip_us. now rewrite Ep, Eq.
Qed.

Lemma contains_strip : forall k x, Py.contains k (strip_us x) = true -> Py.contains k x = true.
Proof.
  intros k x H. apply contains_list in H as [p [t E]]. apply contains_list.
  destruct (strip_sub x) as [p' [q' E']]. rewrite E, <- !app_assoc in E'.
  exists (p' ++ p), (t ++ q'). rewrite E', <- !app_assoc. reflexivity.
Qed.

Lemma in_strip : forall c x,
  In c (list_ascii_of_string (strip_us x)) -> In c (list_ascii_of_string x).
Proof.
  intros c x H. destruct (strip_sub x) as [p [q ->]].
  apply in_or_app. right. apply in_or_app. left. exact H.
Qed.

Lemma sub_runs_chars : forall t b c,
  In c (list_ascii_of_string (sub_runs t b)) -> slug_or_us c = true.
Proof.
  induction t as [|d t IH]; intros b c H; simpl in H; [destruct H|].
  destruct (is_slug_char d) eqn:Hd.
  - destruct H as [<-|H]; [unfold slug_or_us; now rewrite Hd | eauto].
  - destruct b; [eauto|]. destruct H as [<-|H]; [reflexivity | eauto].
Qed.

Lemma slug_chars : forall t, forallb slug_or_us (list_ascii_of_string (slug t)) = true.
Proof.
  intros t. apply forallb_forall. intros c H. apply in_strip in H.
  eapply sub_runs_chars. exact H.
Qed.

(** A word of [a-z0-9] in the slug occurs in the text. *)
Lemma slug_contains : forall k t,
  forallb is_slug_char (list_ascii_of_string k) = true ->
  Py.contains k (slug t) = true -> Py.contains k t = true.
Proof.
  intros k t Hk H. apply contains_strip in H. apply contains_list in H as [p [q E]].
  apply contains_list. eapply sub_runs_sub; eauto.
Qed.

Lemma sub_runs_keeps : forall t b,
  existsb is_slug_char (list_ascii_of_string t) = true ->
  existsb is_slug_char (list_ascii_of_string (sub_runs t b)) = true.
Proof.
  induction t as [|c t IH]; intros b H; simpl in *; [discriminate|].
  destruct (is_slug_char c) eqn:Hc; simpl; [now rewrite Hc|].
  destruct b; simpl; auto.
Qed.

Lemma lstrip_keeps : forall x,
  existsb is_slug_char (list_ascii_of_string x) = true ->
  existsb is_slug_char (list_ascii_of_string (lstrip_us x)) = true.
Proof.
  induction x as [|c x IH]; intros H; simpl in *; [discriminate|].
  destruct (Ascii.eqb_spec c "_") as [->|_]; [apply IH; exact H | exact H].
Qed.

Lemma rstrip_keeps : forall x,
  existsb is_slug_char (list_ascii_of_string x) = true ->
  existsb is_slug_char (list_ascii_of_string (rstrip_us x)) = true.
Proof.
  induction x as [|c x IH]; intros H; simpl in *; [discriminate|].
  destruct (is_slug_char c) eqn:Hc.
  - assert (E : Ascii.eqb c "_" = false)
      by (apply Ascii.eqb_neq; intros ->; discriminate Hc).
    rewrite E, andb_false_r. simpl. now rewrite Hc.
  - simpl in H. specialize (IH H).
    destruct (rstrip_us x) as [|d r]; [discriminate|]. simpl. rewrite Hc. exact IH.
Qed.

Lemma slug_nonempty : forall t,
  existsb is_slug_char (list_ascii_of_string t) = true -> slug t <> "".
Proof.
  intros t H E. unfold slug, strip_us in E.
  pose proof (rstrip_keeps _ (lstrip_keeps _ (sub_runs_keeps t false H))) as K.
  rewrite E in K. discriminate.
Qed.

Lemma sub_runs_us : forall t b,
  existsb is_slug_char (list_ascii_of_string t) = false ->
  forallb (fun c => Ascii.eqb c "_") (list_ascii_of_string (sub_runs t b)) = true.
Proof.
  induction t as [|c t IH]; intros b H; simpl in *; [reflexivity|].
  apply orb_false_iff in H as [Hc H]. rewrite Hc.
  destruct b; simpl; [auto|]. rewrite IH; auto.
Qed.

Lemma lstrip_us_all : forall x,
  forallb (fun c => Ascii.eqb c "_") (list_ascii_of_string x) = true -> lstrip_us x = "".
Proof.
  induction x as [|c x IH]; intros H; simpl in *; [reflexivity|].
  apply andb_true_iff in H as [Hc H]. rewrite Hc. auto.
Qed.

Lemma slug_empty : forall t,
  existsb is_slug_char (list_ascii_of_string t) = false -> slug t = "".
Proof.
  intros t H. unfold slug, strip_us. rewrite lstrip_us_all; [reflexivity|].
  apply sub_runs_us. exact H.
Qed.

Lemma sub_runs_clean : forall t b,
  clean (list_ascii_of_string (sub_runs t b)) = true /\
  (b = true -> starts_us (list_ascii_of_string (sub_runs t b)) = false).
Proof.
  induction t as [|c t IH]; intros b; simpl; [split; reflexivity|].
  destruct (is_slug_char c) eqn:Hc.
  - simpl. destruct (IH false) as [Hcl _]. rewrite Hcl.
    assert (E : Ascii.eqb c "_" = false)
      by (apply Ascii.eqb_neq; intros ->; discriminate Hc).
    unfold slug_or_us. rewrite Hc, E. split; [reflexivity | intros _; reflexivity].
  - destruct b; [apply IH|].
    simpl. destruct (IH true) as [Hcl Hs]. rewrite Hcl, (Hs eq_refl).
    split; [reflexivity | discriminate].
Qed.

Lemma clean_app : forall a b, clean (a ++ b) = true -> clean a = true /\ clean b = true.
Proof.
  induction a as [|c a IH]; intros b H; simpl in *; [split; [reflexivity | exact H]|].
  apply andb_true_iff in H as [H1 H3]. apply andb_true_iff in H1 as [H1 H2].
  destruct (IH b H3) as [Ha Hb]. split; [|exact Hb].
  rewrite H1, Ha, andb_true_r. simpl.
  destruct a as [|d a]; [apply orb_true_r | exact H2].
Qed.

Lemma clean_sub_runs : forall x b, clean (list_ascii_of_string x) = true ->
  (b = true -> starts_us (list_ascii_of_string x) = false) -> sub_runs x b = x.
Proof.
  induction x as [|c x IH]; intros b Hc Hs; simpl in *; [reflexivity|].
  apply andb_true_iff in Hc as [Hc Hx]. apply andb_true_iff in Hc as [Hc Hu].
  unfold slug_or_us in Hc. destruct (is_slug_char c) eqn:Hsc.
  - rewrite IH; [reflexivity | exact Hx | discriminate].
  - simpl in Hc. apply Ascii.eqb_eq in Hc. subst c. destruct b.
    + specialize (Hs eq_refl). discriminate Hs.
    + rewrite IH; [reflexivity | exact Hx|]. intros _. simpl in Hu.
      destruct (starts_us (list_ascii_of_string x)); [discriminate | reflexivity].
Qed.

Lemma lstrip_start : forall x, starts_us (list_ascii_of_string (lstrip_us x)) = false.
Proof.
  induction x as [|c x IH]; simpl; [reflexivity|].
  destruct (Ascii.eqb c "_") eqn:E; [exact IH | simpl; exact E].
Qed.

Lemma lstrip_id : forall x, starts_us (list_ascii_of_string x) = false -> lstrip_us x = x.
Proof. intros [|c x] H; simpl in *; [reflexivity | now rewrite H]. Qed.

Lemma rstrip_start : forall x,
  starts_us (list_ascii_of_string x) = false ->
  starts_us (list_ascii_of_string (rstrip_us x)) = false.
Proof.
  intros x H. destruct (rstrip_prefix x) as [q E].
  destruct (rstrip_us x) as [|c r]; [reflexivity|].
  rewrite E in H. simpl in H |- *. exact H.
Qed.

Lemma rstrip_idem : forall x, rstrip_us (rstrip_us x) = rstrip_us x.
Proof.
  induction x as [|c x IH]; simpl; [reflexivity|].
  destruct (String.eqb (rstrip_us x) "" && Ascii.eqb c "_") eqn:E; [reflexivity|].
  simpl. rewrite IH, E. reflexivity.
Qed.

Lemma strip_idem : forall x, strip_us (strip_us x) = strip_us x.
Proof.
  intros x. unfold strip_us. rewrite (lstrip_id (rstrip_us (lstrip_us x))).
  - apply rstrip_idem.
  - apply rstrip_start, lstrip_start.
Qed.

Lemma slug_clean : forall t, clean (list_ascii_of_string (slug t)) = true.
Proof.
  intros t. unfold slug. destruct (strip_sub (sub_runs t false)) as [p [q E]].
  destruct (sub_runs_clean t false) as [Hc _]. rewrite E in Hc.
  apply clean_app in Hc as [_ Hc]. apply clean_app in Hc as [Hc _]. exact Hc.
Qed.

Lemma slug_idem : forall t, slug (slug t) = slug t.
Proof.
  intros t. unfold slug at 1.
  rewrite clean_sub_runs; [unfold slug; apply strip_idem | apply slug_clean | discriminate].
Qed.

Lemma mem_In : forall x l, Py.mem x l = true -> In x l.
Proof.
  intros x l H. unfold Py.mem in H. apply existsb_exists in H as [y [Hy E]].
  apply String.eqb_eq in E. now subst.
Qed.

(** The rules only look for their keywords, and each condition is monotone:
    a text whose keywords all occur in [s] fires no rule when [s] fires
    none. *)
Lemma canonical_rule_mono : forall s t,
  canonical_rule s = None ->
  (forall k, Py.mem k rule_keywords = true -> Py.contains k t = true ->
             Py.contains k s = true) ->
  canonical_rule t = None.
Proof.
  intros s t H Hm. unfold canonical_rule in *. cbv zeta in *.
  repeat match goal with
  | H : (if ?cs then Some _ else _) = None |- (if ?ct then Some _ else _) = None =>
      let Es := fresh "Es" in let Et := fresh "Et" in
      destruct cs eqn:Es; [discriminate H|];
      destruct ct eqn:Et;
      [ exfalso;
        repeat match type of Et with
               | context [Py.contains ?k t] =>
                   let A := fresh "A" in destruct (Py.contains k t) eqn:A;
                   [rewrite (Hm k eq_refl A) in Es|]
               end;
        repeat match type of Es with
               | context [Py.contains ?k s] => destruct (Py.contains k s)
               end;
        simpl in Es, Et; congruence
      | ]
  end.
  reflexivity.
Qed.

Lemma canonical_rule_ids : forall t c, canonical_rule t = Some c -> In c canonical_ids.
Proof.
  intros t c H. unfold canonical_rule in H. cbv zeta in H.
  repeat match type of H with (if ?b then _ else _) = _ => destruct b end;
    try discriminate; injection H as <-; apply mem_In; reflexivity.
Qed.

(** Every canonical id is a non-empty slug that the canonicaliser keeps. *)
Lemma canonical_ids_ok : forallb (fun c => String.eqb (canonicalize_issue c) c
                                          && negb (String.eqb c "")
                                          && forallb slug_or_us (list_ascii_of_string c))
                                 canonical_ids = true.
Proof. vm_compute. reflexivity. Qed.

(** Each keyword is a word of [a-z0-9], has a character a slug never has
    (a space or a dot), or is one of the three keywords with an
    underscore. *)
Lemma rule_keywords_kinds :
  forallb (fun k => forallb is_slug_char (list_ascii_of_string k)
                    || existsb (fun c => negb (slug_or_us c)) (list_ascii_of_string k)
                    || Py.mem k underscore_keywords) rule_keywords = true.
Proof. vm_compute. reflexivity. Qed.

Lemma rule_keywords_letter :
  forallb (fun k => existsb is_slug_char (list_ascii_of_string k)) rule_keywords = true.
Proof. vm_compute. reflexivity. Qed.

Lemma no_slug_rule_none : forall t,
  existsb is_slug_char (list_ascii_of_string t) = false -> canonical_rule t = None.
Proof.
  intros t H. apply (canonical_rule_mono ""); [reflexivity|].
  intros k Hk Hc. exfalso.
  pose proof rule_keywords_letter as L. rewrite forallb_forall in L.
  pose proof (L k (mem_In _ _ Hk)) as Lk. apply existsb_exists in Lk as [c [Hin Hs]].
  assert (Ht : In c (list_ascii_of_string t)) by (eapply contains_chars; eauto).
  assert (E : existsb is_slug_char (list_ascii_of_string t) = true)
    by (apply existsb_exists; eauto).
  congruence.
Qed.

Lemma slug_rule_none : forall t,
  canonical_rule t = None ->
  existsb (fun k => Py.contains k (slug t)) underscore_keywords = false ->
  canonical_rule (slug t) = None.
Proof.
  intros t H U. apply (canonical_rule_mono t); [exact H|].
  intros k Hk Hc.
  pose proof rule_keywords_kinds as K. rewrite forallb_forall in K.
  specialize (K k (mem_In _ _ Hk)). apply orb_true_iff in K as [K|K];
    [apply orb_true_iff in K as [K|K]|].
  - apply slug_contains; assumption.
  - exfalso. apply existsb_exists in K as [c [Hin Hs]].
    assert (Hin' : In c (list_ascii_of_string (slug t))) by (eapply contains_chars; eauto).
    pose proof (slug_chars t) as S. rewrite forallb_forall in S.
    rewrite (S c Hin') in Hs. discriminate.
  - exfalso. apply mem_In in K.
    assert (E : existsb (fun k => Py.contains k (slug t)) underscore_keywords = true)
      by (apply existsb_exists; eauto).
    congruence.
Qed.

(** C3 (amended): the canonicaliser is total.  When the lower-cased input
    has a character in [a-z0-9], the result is a non-empty string over
    [a-z0-9_]; otherwise it is the lower-cased input itself (so [""] gives
    [""]).  Canonicalising twice gives the same result as once, except when
    no rule fires on the input and its fallback slug contains [api_token],
    [user_url] or [path_traversal]: a rule then fires on the slug. *)
Theorem canonicalize_total : forall s,
  let c := canonicalize_issue s in
  (if existsb is_slug_char (list_ascii_of_string (Py.lower s))
   then c <> "" /\ forallb slug_or_us (list_ascii_of_string c) = true
   else c = Py.lower s) /\
  (canonicalize_issue c = c \/
   (canonical_rule (Py.lower s) = None /\
    existsb (fun k => Py.contains k (slug (Py.lower s))) underscore_keywords = true)).
Proof.
  intros s. cbv zeta.
  assert (Hc : canonicalize_issue s =
                 match canonical_rule (Py.lower s) with
                 | Some c => c
                 | None => if String.eqb (slug (Py.lower s)) "" then Py.lower s
                           else slug (Py.lower s)
                 end) by reflexivity.
  rewrite Hc. assert (Ht : Py.lower (Py.lower s) = Py.lower s) by apply lower_idem.
  set (t := Py.lower s) in *.
  destruct (canonical_rule t) as [id|] eqn:R.
  - pose proof canonical_ids_ok as F. rewrite forallb_forall in F.
    specialize (F id (canonical_rule_ids t id R)).
    apply andb_true_iff in F as [F E3]. apply andb_true_iff in F as [E1 E2].
    apply String.eqb_eq in E1.
    destruct (existsb is_slug_char (list_ascii_of_string t)) eqn:Hs.
    + split; [|left; exact E1]. split; [|exact E3].
      intros E. rewrite E in E2. discriminate.
    + rewrite (no_slug_rule_none t Hs) in R. discriminate.
  - destruct (existsb is_slug_char (list_ascii_of_string t)) eqn:Hs.
    + pose proof (slug_nonempty t Hs) as Hn.
      destruct (String.eqb_spec (slug t) "") as [E|_]; [contradiction|].
      split; [split; [exact Hn | apply slug_chars]|].
      destruct (existsb (fun k => Py.contains k (slug t)) underscore_keywords) eqn:U;
        [right; split; reflexivity|].
      left. unfold canonicalize_issue.
      rewrite (lower_slug (slug t) (slug_chars t)), (slug_rule_none t R U), slug_idem.
      destruct (String.eqb_spec (slug t) ""); [contradiction | reflexivity].
    + rewrite (slug_empty t Hs). split; [reflexivity|]. left.
      change (String.eqb "" "") with true. cbv iota.
      unfold canonicalize_issue. rewrite Ht, R, (slug_empty t Hs). reflexivity.
Qed.
End Proofs.

(** ** Further properties of the modelled code *)

Module Further.
Import Re Static Pipeline Claims Proofs Tables.
Local Open Scope list_scope.

Lemma pattern_loop_len : forall docfl linefl pats cap mkf code,
  length (pattern_loop docfl linefl pats cap mkf code) <= 1.
Proof.
  intros docfl linefl; induction pats as [|p ps IH]; intros cap mkf code; simpl; [lia|].
  destruct (search docfl p code); [|apply IH].
  destruct (matching_lines (search linefl p) code); [apply IH | simpl; lia].
Qed.

Lemma guarded_len : forall cond P cap mkf code, length (guarded cond P cap mkf code) <= 1.
Proof.
  intros. unfold guarded. destruct cond; [destruct (matching_lines P code)|]; simpl; lia.
Qed.

Lemma secret_loop_len : forall pats mkf code, length (secret_loop pats mkf code) <= 1.
Proof.
  induction pats as [|p ps IH]; intros mkf code; simpl; [lia|].
  destruct (finditer FI p code) as [|m ms]; [apply IH|].
  try (match goal with |- context [match ?x with [] => _ | _ :: _ => _ end] => destruct x end);
    first [apply IH | simpl; lia].
Qed.

Lemma mem_false : forall x l, Py.mem x l = false -> ~ In x l.
Proof.
  intros x l H Hin. unfold Py.mem in H.
  assert (E : existsb (String.eqb x) l = true)
    by (apply existsb_exists; exists x; split; [exact Hin | apply String.eqb_refl]).
  congruence.
Qed.

Lemma issue_name_of : forall f i, issue f = Some i -> issue_name f = Py.lower i.
Proof. intros f i H. unfold issue_name, get_issue. rewrite H. reflexivity. Qed.

(** The findings of a list of rules that each report at most one finding,
    with a fixed issue and severity. *)
Lemma rules_table : forall (rs : list (string -> list finding)) tbl code,
  Forall2 (fun r p => (forall f, In f (r code) ->
                         issue f = Some (fst p) /\ severity f = Some (snd p))
                      /\ length (r code) <= 1) rs tbl ->
  NoDup (map (fun p => Py.lower (fst p)) tbl) ->
  NoDup (map issue_name (flat_map (fun r => r code) rs)) /\
  length (flat_map (fun r => r code) rs) <= length tbl /\
  (forall f, In f (flat_map (fun r => r code) rs) ->
     exists p, In p tbl /\ issue f = Some (fst p) /\ severity f = Some (snd p)).
Proof.
  intros rs tbl code H. induction H as [|r p rs tbl [Hr Hl] H IH]; intros Hn.
  - simpl. split; [constructor | split; [lia | contradiction]].
  - simpl in Hn. inversion Hn as [|x y Hx Hn']; subst.
    destruct (IH Hn') as [N [L F]]. cbn [flat_map].
    destruct (r code) as [|f [|g l]] eqn:E; [| |simpl in Hl; lia].
    + simpl. split; [exact N | split; [lia|]].
      intros f Hf. destruct (F f Hf) as [q [Hq Hf']]. exists q. split; [right; exact Hq | exact Hf'].
    + destruct (Hr f (or_introl eq_refl)) as [Hi Hs]. simpl. split; [|split; [lia|]].
      * constructor; [|exact N]. rewrite (issue_name_of f _ Hi). intros Hin.
        apply in_map_iff in Hin as [g [Eg Hg]]. destruct (F g Hg) as [q [Hq [Hgi _]]].
        rewrite (issue_name_of g _ Hgi) in Eg. apply Hx. apply in_map_iff. eauto.
      * intros h [<-|Hh]; [exists p; split; [left; reflexivity | split; assumption]|].
        destruct (F h Hh) as [q [Hq Hh']]. exists q. split; [right; exact Hq | exact Hh'].
Qed.

Ltac rule_entry :=
  split;
  [ let f := fresh "f" in let Hf := fresh "Hf" in intros f Hf;
    try (match type of Hf with
         | In _ (if ?a then (if ?b then _ else _) else _) =>
             destruct a, b; try destruct Hf
         end);
    rule_output Hf; split; reflexivity
  | try (match goal with
         | |- length (if ?a then (if ?b then _ else _) else _) <= _ =>
             destruct a, b; try (simpl; lia)
         end);
    first [apply pattern_loop_len | apply secret_loop_len | apply guarded_len] ].

Lemma static_issues_nodup : NoDup (map (fun p => Py.lower (fst p)) static_issues).
Proof.
  vm_compute. repeat (constructor; [simpl; intuition discriminate|]). constructor.
Qed.

Lemma static_table : forall code,
  NoDup (map issue_name (run_static_analysis code)) /\
  length (run_static_analysis code) <= length static_issues /\
  (forall f, In f (run_static_analysis code) ->
     exists p, In p static_issues /\ issue f = Some (fst p) /\ severity f = Some (snd p)).
Proof.
  intros code. apply rules_table; [|exact static_issues_nodup].
  unfold rules, static_issues.
  repeat apply Forall2_cons; try apply Forall2_nil;
    cbv beta; cbn [fst snd];
    unfold sql_rule, secret_rule, eval_rule, exec_rule, os_system_rule, subprocess_rule,
      ssrf_rule, xss_rule, pickle_rule, md5_rule, debug_rule, csrf_rule, logging_rule,
      path_rule, idor_rule; rule_entry.
Qed.

Lemma enum_from_range : forall P ls i n, In n (enum_from P ls i) -> i < n <= i + length ls.
Proof.
  intros P; induction ls as [|l ls IH]; intros i n H; simpl in H; [contradiction|].
  cbn [length]. destruct (P l).
  - destruct H as [<-|H]; [lia|]. apply IH in H. lia.
  - apply IH in H. lia.
Qed.

Lemma in_firstn : forall (A : Type) k (l : list A) x, In x (firstn k l) -> In x l.
Proof.
  intros A k l x H. rewrite <- (firstn_skipn k l). apply in_or_app. left. exact H.
Qed.

Lemma split_nl_length : forall s,
  length (split_nl s) = S (count_occ ascii_dec (list_ascii_of_string s) nl).
Proof.
  induction s as [|c s IH]; [reflexivity|]. simpl.
  destruct (Ascii.eqb_spec c nl) as [->|Hne].
  - destruct (ascii_dec nl nl) as [_|C]; [|contradiction]. simpl. rewrite IH. reflexivity.
  - destruct (ascii_dec c nl) as [E|_]; [contradiction|].
    destruct (split_nl s) as [|l ls]; simpl in *; lia.
Qed.

Lemma count_occ_firstn : forall n (l : list ascii) x,
  count_occ ascii_dec (firstn n l) x <= count_occ ascii_dec l x.
Proof.
  intros n l x. rewrite <- (firstn_skipn n l) at 2. rewrite count_occ_app. lia.
Qed.

Lemma line_of_range : forall code start,
  1 <= line_of (list_ascii_of_string code) start <= length (split_nl code).
Proof.
  intros code start. unfold line_of. rewrite split_nl_length.
  pose proof (count_occ_firstn start (list_ascii_of_string code) nl). lia.
Qed.

Lemma secret_loop_lines : forall pats mkf code f,
  In f (secret_loop pats mkf code) ->
  exists ms : list (nat * nat),
    f = mkf (map (fun m => line_of (list_ascii_of_string code) (fst m)) (firstn 3 ms)).
Proof.
  induction pats as [|p ps IH]; intros mkf code f H; [destruct H|].
  simpl in H. destruct (finditer FI p code) as [|m ms]; [eauto|].
  simpl in H. destruct H as [<-|[]]. exists (m :: ms). reflexivity.
Qed.

(** Line numbers taken from [matching_lines] and capped. *)
Lemma capped_lines : forall cap P code,
  length (firstn cap (matching_lines P code)) <= cap /\
  Forall (fun n => 1 <= n <= length (split_nl code)) (firstn cap (matching_lines P code)).
Proof.
  intros cap P code. split; [apply firstn_le_length|].
  apply Forall_forall. intros n Hn. apply in_firstn in Hn.
  apply enum_from_range in Hn. lia.
Qed.

Lemma secret_lines : forall code (ms : list (nat * nat)),
  length (map (fun m => line_of (list_ascii_of_string code) (fst m)) (firstn 3 ms)) <= 3 /\
  Forall (fun n => 1 <= n <= length (split_nl code))
    (map (fun m => line_of (list_ascii_of_string code) (fst m)) (firstn 3 ms)).
Proof.
  intros code ms. rewrite length_map. split; [apply firstn_le_length|].
  apply Forall_forall. intros n Hn. apply in_map_iff in Hn as [m [<- _]]. apply line_of_range.
Qed.

Lemma rule_lines_bounds : forall (rule : string -> list finding) code f,
  In rule (rules ++ Legacy.rules) -> In f (rule code) ->
  length (line_numbers f) <= 5 /\
  Forall (fun n => 1 <= n <= length (split_nl code)) (line_numbers f).
Proof.
  intros rule code f Hr Hf. simpl in Hr.
  repeat destruct Hr as [<-|Hr]; try contradiction;
    unfold sql_rule, secret_rule, Legacy.secret_rule, eval_rule, exec_rule, os_system_rule,
      subprocess_rule, ssrf_rule, xss_rule, pickle_rule, md5_rule, debug_rule, csrf_rule,
      logging_rule, path_rule, idor_rule in Hf;
    try (match type of Hf with
         | In _ (if ?a then (if ?b then _ else _) else _) =>
             destruct a, b; try destruct Hf
         end);
    first [ apply pattern_loop_out in Hf as [? [ml [-> [-> _]]]];
            cbn [line_numbers mk idor_finding];
            match goal with |- context [firstn ?c (matching_lines ?P code)] =>
              destruct (capped_lines c P code) as [H1 H2]; split; [lia | exact H2] end
          | apply secret_loop_lines in Hf as [ms ->];
            cbn [line_numbers mk idor_finding];
            destruct (secret_lines code ms) as [H1 H2]; split; [lia | exact H2]
          | apply guarded_out in Hf as [ml [-> [-> _]]];
            cbn [line_numbers mk idor_finding];
            match goal with |- context [firstn ?c (matching_lines ?P code)] =>
              destruct (capped_lines c P code) as [H1 H2]; split; [lia | exact H2] end ].
Qed.

Lemma legacy_issues_nodup : NoDup (map (fun p => Py.lower (fst p)) legacy_issues).
Proof.
  vm_compute. repeat (constructor; [simpl; intuition discriminate|]). constructor.
Qed.

Lemma legacy_table : forall code,
  NoDup (map issue_name (Legacy.run_static_analysis code)) /\
  length (Legacy.run_static_analysis code) <= length legacy_issues /\
  (forall f, In f (Legacy.run_static_analysis code) ->
     exists p, In p legacy_issues /\ issue f = Some (fst p) /\ severity f = Some (snd p)).
Proof.
  intros code. apply rules_table; [|exact legacy_issues_nodup].
  unfold Legacy.rules, legacy_issues.
  repeat apply Forall2_cons; try apply Forall2_nil;
    cbv beta; cbn [fst snd];
    unfold sql_rule, Legacy.secret_rule, eval_rule, exec_rule, os_system_rule; rule_entry.
Qed.

Lemma re_csrf_shape : re_csrf = alt_lits csrf_keywords.
Proof. vm_compute. reflexivity. Qed.

Lemma re_post_route_shape :
  exists X, re_post_route = lits (list_ascii_of_string "@app.route") X.
Proof. eexists. reflexivity. Qed.

(** The alternation [csrf|csrf_token|csrf_protect] matches exactly when
    [csrf] occurs in any case. *)
Lemma csrf_search : forall code, search FI re_csrf code = contains_ci "csrf" code.
Proof.
  intros code. apply eq_true_iff_eq. rewrite re_csrf_shape, search_alt_lits_icase;
    [| reflexivity
     | unfold csrf_keywords; repeat apply Forall_cons; try apply Forall_nil;
       (split; [discriminate | reflexivity])].
  split.
  - intros [k [Hk Hc]]. unfold contains_ci in *. apply contains_list in Hc as [p [t E]].
    apply contains_list. simpl in Hk.
    destruct Hk as [<-|[<-|[<-|[]]]];
      [ exists p, t; exact E
      | exists p, (list_ascii_of_string "_token" ++ t); rewrite E; reflexivity
      | exists p, (list_ascii_of_string "_protect" ++ t); rewrite E; reflexivity ].
  - intros H. exists "csrf". split; [left; reflexivity | exact H].
Qed.

Lemma post_route_contains : forall code,
  search F0 re_post_route code = true -> Py.contains "@app.route" code = true.
Proof.
  intros code Hr. destruct re_post_route_shape as [X HX]. rewrite HX in Hr.
  apply search_iff in Hr as [i [j [_ Hj]]]. apply lits_ends in Hj as [Ha _].
  apply match_at_F0 in Ha. apply contains_exact; [discriminate | exists i; exact Ha].
Qed.

(** Only the CSRF rule reports a CSRF finding. *)
Lemma csrf_only : forall code f,
  In f (run_static_analysis code) -> issue f = Some "Missing CSRF Protection" ->
  In f (csrf_rule code).
Proof.
  intros code f H Hi. apply in_flat_map in H as [rule [Hr Hf]]. simpl in Hr.
  repeat destruct Hr as [<-|Hr]; try contradiction; try exact Hf; exfalso;
    unfold sql_rule, secret_rule, eval_rule, exec_rule, os_system_rule, subprocess_rule,
      ssrf_rule, xss_rule, pickle_rule, md5_rule, debug_rule, logging_rule,
      path_rule, idor_rule in Hf;
    try (match type of Hf with
         | In _ (if ?a then (if ?b then _ else _) else _) =>
             destruct a, b; try destruct Hf
         end);
    rule_output Hf; discriminate Hi.
Qed.

(** The current pattern matcher reports at most one finding per rule: at
    most 15 findings, whose lower-cased issue texts are pairwise distinct, and
    each with the issue text and severity of its rule (critical, high or
    medium). *)
Theorem static_findings_distinct : forall code,
  NoDup (map issue_name (Static.run_static_analysis code)) /\
  length (Static.run_static_analysis code) <= 15 /\
  Forall (fun f => exists p, In p static_issues /\
                             issue f = Some (fst p) /\ severity f = Some (snd p))
    (Static.run_static_analysis code).
Proof.
  intros code. destruct (static_table code) as [N [L F]].
  split; [exact N | split; [exact L | apply Forall_forall; exact F]].
Qed.

(** Every finding of the current pattern matcher lists at most 5 line
    numbers, each between 1 and the number of lines of the code. *)
Theorem static_line_bounds : forall code,
  Forall (fun f => length (line_numbers f) <= 5 /\
                   Forall (fun n => 1 <= n <= length (split_nl code)) (line_numbers f))
    (Static.run_static_analysis code).
Proof.
  intros code. apply Forall_forall. intros f Hf. apply in_flat_map in Hf as [r [Hr Hf]].
  apply (rule_lines_bounds r code f); [apply in_or_app; left; exact Hr | exact Hf].
Qed.

(** The legacy pattern matcher reports at most one finding per rule (at
    most 5, lower-cased issue texts pairwise distinct, issue and severity of
    the rule), each with 1 to 5 line numbers between 1 and the number of lines
    of the code. *)
Theorem legacy_static_findings : forall code,
  NoDup (map issue_name (Legacy.run_static_analysis code)) /\
  length (Legacy.run_static_analysis code) <= 5 /\
  Forall (fun f => (exists p, In p legacy_issues /\
                              issue f = Some (fst p) /\ severity f = Some (snd p)) /\
                   line_numbers f <> [] /\ length (line_numbers f) <= 5 /\
                   Forall (fun n => 1 <= n <= length (split_nl code)) (line_numbers f))
    (Legacy.run_static_analysis code).
Proof.
  intros code. destruct (legacy_table code) as [N [L F]].
  split; [exact N | split; [exact L|]].
  apply Forall_forall. intros f Hf. split; [exact (F f Hf)|].
  apply in_flat_map in Hf as [r [Hr Hf]]. split.
  - simpl in Hr. repeat destruct Hr as [<-|Hr]; try contradiction;
      unfold sql_rule, Legacy.secret_rule, eval_rule, exec_rule, os_system_rule in Hf;
      rule_lines Hf.
  - apply (rule_lines_bounds r code f); [apply in_or_app; right; exact Hr | exact Hf].
Qed.

(** For a code with a POST route (the rule's route pattern matches), a CSRF
    finding is reported exactly when [csrf] occurs nowhere in the code, in any
    case: the alternation [csrf|csrf_token|csrf_protect] reduces to its first
    word. *)
Theorem csrf_global_suppression : forall code,
  search F0 re_post_route code = true ->
  ((exists f, In f (Static.run_static_analysis code) /\
              issue f = Some "Missing CSRF Protection")
   <-> contains_ci "csrf" code = false).
Proof.
  intros code Hr.
  assert (Hml : matching_lines (Py.contains "@app.route") code <> []).
  { apply matching_lines_contains; [apply no_nl_of; reflexivity|].
    apply post_route_contains. exact Hr. }
  split.
  - intros [f [Hf Hi]]. apply csrf_only in Hf; [|exact Hi].
    unfold csrf_rule in Hf. rewrite Hr, csrf_search in Hf.
    destruct (contains_ci "csrf" code); [destruct Hf | reflexivity].
  - intros Hn.
    exists (mk "Missing CSRF Protection" "medium" "POST endpoint without CSRF protection."
              (firstn 3 (matching_lines (Py.contains "@app.route") code))
              "Implement CSRF tokens or same-site cookies.").
    split; [|reflexivity].
    apply in_flat_map. exists csrf_rule. split; [apply nth_error_In with 11; reflexivity|].
    unfold csrf_rule. rewrite Hr, csrf_search, Hn. cbn [negb].
    rewrite guarded_some; [left; reflexivity | reflexivity | exact Hml].
Qed.

Lemma csrf_global_suppression_witness :
  search F0 re_post_route post_code = true /\
  ((exists f, In f (Static.run_static_analysis post_code) /\
              issue f = Some "Missing CSRF Protection")
   <-> contains_ci "csrf" post_code = false).
Proof.
  split; [vm_compute; reflexivity|].
  apply csrf_global_suppression. vm_compute. reflexivity.
Defined.

(** *** Scores *)

Lemma penalty_cases : forall v,
  Scorer.penalty v = 80%Z \/ Scorer.penalty v = 55%Z \/
  Scorer.penalty v = 40%Z \/ Scorer.penalty v = 15%Z.
Proof.
  intros v. rewrite penalty_spec. unfold Scorer.spec_penalty.
  destruct (severity v) as [s|]; [|tauto].
  repeat match goal with |- context [String.eqb ?a ?b] => destruct (String.eqb a b) end; tauto.
Qed.

Lemma total_penalty_min : forall vs,
  (15 * Z.of_nat (length vs) <= Scorer.total_penalty vs)%Z.
Proof.
  induction vs as [|v vs IH]; cbn [length Scorer.total_penalty]; [lia|].
  pose proof (penalty_cases v). lia.
Qed.

Lemma risk_of_low : forall sc, Scorer.risk_level_of sc = Scorer.RLow <-> (80 <= sc)%Z.
Proof.
  intros sc. unfold Scorer.risk_level_of.
  repeat match goal with |- context [Z.leb ?a ?b] => destruct (Z.leb_spec a b) end;
    split; intros; first [reflexivity | lia | discriminate].
Qed.

Lemma risk_of_critical : forall sc, (sc < 40)%Z -> Scorer.risk_level_of sc = Scorer.RCritical.
Proof.
  intros sc H. unfold Scorer.risk_level_of.
  repeat match goal with |- context [Z.leb ?a ?b] => destruct (Z.leb_spec a b) end;
    first [reflexivity | lia].
Qed.

(** The risk level is low exactly when there is no finding, or a single
    finding whose penalty is 15 (severity low, missing or unknown). *)
Theorem risk_low_iff : forall vs,
  Scorer.risk_level vs = Scorer.RLow <->
  vs = [] \/ exists v, vs = [v] /\ Scorer.penalty v = 15%Z.
Proof.
  intros vs. unfold Scorer.risk_level. rewrite risk_of_low. unfold Scorer.security_score.
  destruct vs as [|v [|w vs]]; cbn [Scorer.total_penalty].
  - split; [left; reflexivity | lia].
  - pose proof (penalty_cases v). split.
    + intros H1. right. exists v. split; [reflexivity | lia].
    + intros [E|[u [E Hu]]]; [discriminate|]. injection E as <-. lia.
  - pose proof (penalty_cases v). pose proof (penalty_cases w).
    pose proof (total_penalty_min vs). split; [lia|].
    intros [E|[u [E _]]]; discriminate.
Qed.

(** Every finding costs at least 15 points: the score is at most
    [max(0, 100 - 15 n)] for [n] findings, and seven findings or more give the
    score 0 and the risk level critical. *)
Theorem score_floor : forall vs,
  (Scorer.security_score vs <= Z.max 0 (100 - 15 * Z.of_nat (length vs)))%Z /\
  (7 <= length vs -> Scorer.security_score vs = 0%Z /\
                     Scorer.risk_level vs = Scorer.RCritical).
Proof.
  intros vs. pose proof (total_penalty_min vs) as H.
  unfold Scorer.risk_level, Scorer.security_score. split; [lia|].
  intros H7. assert (E : Z.max 0 (100 - Scorer.total_penalty vs) = 0%Z) by lia.
  rewrite E. split; [reflexivity | apply risk_of_critical; lia].
Qed.

Lemma penalty_canon : forall v, Scorer.penalty (canonicalize_finding v) = Scorer.penalty v.
Proof. reflexivity. Qed.

Lemma total_penalty_canon : forall l,
  Scorer.total_penalty (map canonicalize_finding l) = Scorer.total_penalty l.
Proof.
  induction l as [|v l IH]; cbn [map Scorer.total_penalty]; [reflexivity|].
  rewrite IH, penalty_canon. reflexivity.
Qed.

Lemma static_penalty : forall code f,
  In f (run_static_analysis code) -> (40 <= Scorer.penalty f)%Z.
Proof.
  intros code f Hf. destruct (static_table code) as [_ [_ F]].
  destruct (F f Hf) as [p [Hp [_ Hs]]]. rewrite penalty_spec, Hs.
  unfold static_issues in Hp. simpl in Hp.
  repeat destruct Hp as [<-|Hp]; try contradiction; vm_compute; discriminate.
Qed.

(** When the pattern matcher reports anything, the final score is at most 60
    and the risk level is not low, whatever the model reports. *)
Theorem static_finding_not_low : forall code ext,
  Static.run_static_analysis code <> [] ->
  (Pipeline.security_score (Pipeline.analyze_code_security code ext) <= 60)%Z /\
  Pipeline.risk_level (Pipeline.analyze_code_security code ext) <> Scorer.RLow.
Proof.
  intros code ext Hn. unfold Pipeline.analyze_code_security, analyze.
  cbn [Pipeline.security_score Pipeline.risk_level].
  destruct (run_static_analysis code) as [|f heur] eqn:E; [contradiction|].
  assert (Hf : (40 <= Scorer.penalty f)%Z)
    by (apply (static_penalty code); rewrite E; left; reflexivity).
  assert (Ht : (40 <= Scorer.total_penalty
                        (map canonicalize_finding (merge (f :: heur) ext code)))%Z).
  { rewrite total_penalty_canon, merge_app. cbn [app Scorer.total_penalty].
    pose proof (total_penalty_min (heur ++ spec_accepted (map issue_name (f :: heur)) ext code)).
    lia. }
  unfold Scorer.risk_level, Scorer.security_score. rewrite risk_of_low. lia.
Qed.

Lemma static_finding_not_low_witness :
  Static.run_static_analysis eval_code <> [] /\
  (Pipeline.security_score (Pipeline.analyze_code_security eval_code []) <= 60)%Z /\
  Pipeline.risk_level (Pipeline.analyze_code_security eval_code []) <> Scorer.RLow.
Proof.
  split; [vm_compute; discriminate|].
  apply static_finding_not_low. vm_compute. discriminate.
Defined.

(** *** Merges *)

Lemma mem_true : forall x l, In x l -> Py.mem x l = true.
Proof.
  intros x l H. unfold Py.mem. apply existsb_exists. exists x.
  split; [exact H | apply String.eqb_refl].
Qed.

Lemma spec_accepted_nodup : forall code ext seen,
  NoDup seen -> NoDup (seen ++ map issue_name (spec_accepted seen ext code)).
Proof.
  intros code; induction ext as [|v ext IH]; intros seen Hs; simpl;
    [rewrite app_nil_r; exact Hs|].
  destruct (Py.mem (issue_name v) seen) eqn:M; [apply IH; exact Hs|].
  destruct (verify_ai_finding v code); [|apply IH; exact Hs].
  apply mem_false in M. specialize (IH (issue_name v :: seen) (NoDup_cons _ M Hs)).
  eapply Permutation_NoDup; [|exact IH]. simpl. apply Permutation_middle.
Qed.

Lemma merge_nodup : forall heur ext code,
  NoDup (map issue_name heur) -> NoDup (map issue_name (merge heur ext code)).
Proof.
  intros heur ext code H. rewrite merge_app, map_app. apply spec_accepted_nodup. exact H.
Qed.

(** In the final findings the recorded original issue texts, lower-cased,
    are pairwise distinct (the canonical issue keys need not be). *)
Theorem merged_names_distinct : forall code ext,
  NoDup (map original_name (Pipeline.vulnerabilities (Pipeline.analyze_code_security code ext))).
Proof.
  intros code ext. unfold Pipeline.analyze_code_security, analyze.
  cbn [Pipeline.vulnerabilities]. rewrite map_map.
  rewrite (map_ext (fun x => original_name (canonicalize_finding x)) issue_name)
    by reflexivity.
  apply merge_nodup. apply static_table.
Qed.

(** A finding whose issue text names a noisy category ([missing
    authentication], [weak password], ...) is in the merged list only if it
    is a heuristic finding. *)
Theorem noisy_findings_never_added : forall heur ext code v,
  In v (Pipeline.merge heur ext code) ->
  existsb (fun k => Py.contains k (issue_name v)) noisy_categories = true ->
  In v heur.
Proof.
  intros heur ext code v Hin Hn. rewrite merge_app in Hin.
  apply in_app_or in Hin as [H|H]; [exact H|].
  apply spec_accepted_sound in H as [_ Hv]. unfold verify_ai_finding in Hv. cbv zeta in Hv.
  unfold issue_name, get_issue in Hn. rewrite Hn in Hv. discriminate.
Qed.

Lemma noisy_findings_never_added_witness :
  In noisy_finding (Pipeline.merge [noisy_finding] [noisy_finding] eval_code) /\
  existsb (fun k => Py.contains k (issue_name noisy_finding)) noisy_categories = true /\
  In noisy_finding [noisy_finding].
Proof.
  assert (H1 : In noisy_finding (Pipeline.merge [noisy_finding] [noisy_finding] eval_code))
    by (vm_compute; left; reflexivity).
  assert (H2 : existsb (fun k => Py.contains k (issue_name noisy_finding)) noisy_categories
               = true) by (vm_compute; reflexivity).
  split; [exact H1 | split; [exact H2|]].
  exact (noisy_findings_never_added [noisy_finding] [noisy_finding] eval_code noisy_finding H1 H2).
Defined.

Lemma legacy_fold : forall ext acc seen,
  all_vulns (fold_left Legacy.merge_step ext (MergeState acc seen)) = acc ++ fresh seen ext.
Proof.
  induction ext as [|v ext IH]; intros acc seen; simpl; [rewrite app_nil_r; reflexivity|].
  unfold Legacy.merge_step at 2. cbn [Pipeline.seen Pipeline.all_vulns].
  destruct (Py.mem (issue_name v) seen); [apply IH|].
  rewrite IH, <- app_assoc. reflexivity.
Qed.

Lemma legacy_merge_fresh : forall heur ext,
  Legacy.merge heur ext = heur ++ fresh (map issue_name heur) ext.
Proof. intros. unfold Legacy.merge. apply legacy_fold. Qed.

Lemma verify_by_name : forall v w code,
  issue_name v = issue_name w -> verify_ai_finding v code = verify_ai_finding w code.
Proof.
  intros v w code H. unfold verify_ai_finding. cbv zeta.
  unfold issue_name, get_issue in H. rewrite H. reflexivity.
Qed.

Lemma accepted_filter : forall code ext seenA seenL,
  (forall x, In x seenA -> In x seenL) ->
  (forall w, In (issue_name w) seenL -> ~ In (issue_name w) seenA ->
             verify_ai_finding w code = false) ->
  spec_accepted seenA ext code = filter (fun v => verify_ai_finding v code) (fresh seenL ext).
Proof.
  intros code; induction ext as [|v ext IH]; intros seenA seenL H1 H2; [reflexivity|].
  cbn [spec_accepted fresh].
  destruct (Py.mem (issue_name v) seenL) eqn:ML.
  - destruct (Py.mem (issue_name v) seenA) eqn:MA; [apply IH; assumption|].
    rewrite (H2 v (mem_In _ _ ML) (mem_false _ _ MA)). apply IH; assumption.
  - assert (MA : Py.mem (issue_name v) seenA = false).
    { destruct (Py.mem (issue_name v) seenA) eqn:MA; [|reflexivity].
      apply mem_In, H1, mem_true in MA. congruence. }
    rewrite MA. cbn [filter]. destruct (verify_ai_finding v code) eqn:V.
    + f_equal. apply IH.
      * intros x [<-|Hx]; [left; reflexivity | right; apply H1; exact Hx].
      * intros w [Hw|Hw] Hn; [exfalso; apply Hn; left; exact Hw|].
        apply H2; [exact Hw | intros Ha; apply Hn; right; exact Ha].
    + apply IH.
      * intros x Hx. right. apply H1. exact Hx.
      * intros w [Hw|Hw] Hn.
        -- rewrite (verify_by_name w v code (eq_sym Hw)). exact V.
        -- apply H2; assumption.
Qed.

Lemma skipn_prefix : forall (A : Type) (l r : list A), skipn (length l) (l ++ r) = r.
Proof. intros A; induction l as [|a l IH]; intros r; simpl; [reflexivity | apply IH]. Qed.

(** The current merge is the legacy merge with the external findings that
    the corroboration filter rejects removed. *)
Theorem merge_filters_legacy : forall heur ext code,
  Pipeline.merge heur ext code =
  heur ++ filter (fun v => verify_ai_finding v code) (skipn (length heur) (Legacy.merge heur ext)).
Proof.
  intros heur ext code. rewrite merge_app, legacy_merge_fresh, skipn_prefix. f_equal.
  apply accepted_filter; [tauto|]. intros w Hw Hn. contradiction.
Qed.

Lemma fresh_incl : forall ext seen v, In v (fresh seen ext) -> In v ext.
Proof.
  induction ext as [|w ext IH]; intros seen v H; simpl in H; [contradiction|].
  destruct (Py.mem (issue_name w) seen).
  - right. exact (IH _ _ H).
  - destruct H as [<-|H]; [left; reflexivity | right; exact (IH _ _ H)].
Qed.

Lemma fresh_names : forall ext seen v, In v ext ->
  In (issue_name v) seen \/ In (issue_name v) (map issue_name (fresh seen ext)).
Proof.
  induction ext as [|w ext IH]; intros seen v H; [contradiction|]. cbn [fresh].
  destruct (Py.mem (issue_name w) seen) eqn:M.
  - destruct H as [<-|H]; [left; apply mem_In; exact M | exact (IH seen v H)].
  - destruct H as [<-|H]; [right; left; reflexivity|].
    destruct (IH (issue_name w :: seen) v H) as [[E|E]|E].
    + right. left. exact E.
    + left. exact E.
    + right. right. exact E.
Qed.

Lemma fresh_nodup : forall ext seen,
  NoDup seen -> NoDup (seen ++ map issue_name (fresh seen ext)).
Proof.
  induction ext as [|v ext IH]; intros seen Hs; simpl; [rewrite app_nil_r; exact Hs|].
  destruct (Py.mem (issue_name v) seen) eqn:M; [apply IH; exact Hs|].
  apply mem_false in M. specialize (IH (issue_name v :: seen) (NoDup_cons _ M Hs)).
  eapply Permutation_NoDup; [|exact IH]. simpl. apply Permutation_middle.
Qed.

(** The legacy merge keeps the static findings first and appends only
    external findings; the issue text of every external finding is
    represented in the result: nothing is rejected for lack of
    corroboration. *)
Theorem legacy_merge_shape : forall heur ext,
  (exists acc, Legacy.merge heur ext = heur ++ acc /\ incl acc ext) /\
  (forall v, In v ext -> In (issue_name v) (map issue_name (Legacy.merge heur ext))).
Proof.
  intros heur ext. rewrite legacy_merge_fresh. split.
  - exists (fresh (map issue_name heur) ext). split; [reflexivity|].
    intros v Hv. exact (fresh_incl _ _ _ Hv).
  - intros v Hv. rewrite map_app. apply in_or_app. exact (fresh_names ext _ v Hv).
Qed.

(** The legacy report's findings have pairwise distinct lower-cased issue
    texts. *)
Theorem legacy_names_distinct : forall code ext,
  NoDup (map issue_name (Legacy.vulnerabilities (Legacy.analyze_code_security code ext))).
Proof.
  intros code ext. unfold Legacy.analyze_code_security, Legacy.analyze.
  cbn [Legacy.vulnerabilities]. rewrite legacy_merge_fresh, map_app.
  apply fresh_nodup. apply legacy_table.
Qed.

(** *** Legacy scores *)

Lemma points_cases : forall v,
  Legacy.points v = 25%Z \/ Legacy.points v = 15%Z \/
  Legacy.points v = 8%Z \/ Legacy.points v = 3%Z.
Proof.
  intros v. unfold Legacy.points. cbn [Scorer.dict_get Legacy.severity_points].
  repeat match goal with |- context [String.eqb ?a ?b] => destruct (String.eqb a b) end; tauto.
Qed.

Lemma total_risk_points_min : forall vs,
  (3 * Z.of_nat (length vs) <= Legacy.total_risk_points vs)%Z.
Proof.
  induction vs as [|v vs IH]; cbn [length Legacy.total_risk_points]; [lia|].
  pose proof (points_cases v). lia.
Qed.

(** The legacy score is [max(0, 100 - 0.8 t)] for [t] risk points (the [t = 0]
    case included), and the risk level is low up to 25 points, medium up to
    50, high up to 75 and critical above: a single critical finding (25
    points) is low risk. *)
Theorem legacy_risk_bands : forall vs,
  Legacy.security_score_tenths vs = Z.max 0 (1000 - 8 * Legacy.total_risk_points vs) /\
  Legacy.risk_level vs =
    (if (Legacy.total_risk_points vs <=? 25)%Z then Scorer.RLow
     else if (Legacy.total_risk_points vs <=? 50)%Z then Scorer.RMedium
     else if (Legacy.total_risk_points vs <=? 75)%Z then Scorer.RHigh
     else Scorer.RCritical).
Proof.
  intros vs. pose proof (total_risk_points_min vs).
  assert (E : Legacy.security_score_tenths vs = Z.max 0 (1000 - 8 * Legacy.total_risk_points vs)).
  { unfold Legacy.security_score_tenths. cbv zeta.
    destruct (Z.eqb_spec (Legacy.total_risk_points vs) 0) as [->|_]; reflexivity. }
  split; [exact E|]. unfold Legacy.risk_level. cbv zeta. rewrite E.
  generalize (Legacy.total_risk_points vs). intros t.
  repeat match goal with |- context [Z.leb ?a ?b] => destruct (Z.leb_spec a b) end;
    first [reflexivity | lia].
Qed.

(** Every legacy finding costs at least 3 risk points, so the legacy score is
    100 exactly when there is no finding. *)
Theorem legacy_perfect_iff_empty : forall vs,
  (3 * Z.of_nat (length vs) <= Legacy.total_risk_points vs)%Z /\
  (Legacy.security_score_tenths vs = 1000%Z <-> vs = []).
Proof.
  intros vs. pose proof (total_risk_points_min vs) as H. split; [exact H|].
  unfold Legacy.security_score_tenths. cbv zeta. destruct vs as [|v vs].
  - split; reflexivity.
  - cbn [length] in H. split; [|discriminate].
    destruct (Z.eqb_spec (Legacy.total_risk_points (v :: vs)) 0); lia.
Qed.

(** *** Retrieval and report *)

Lemma pair_from_spec : forall docs idl i,
  Rag.pair_from idl docs i =
  if (length docs <=? length idl - i)%nat
  then Some (map (fun p => Rag.Retrieval (fst p) (snd p)) (combine (skipn i idl) docs))
  else None.
Proof.
  induction docs as [|d ds IH]; intros idl i; cbn [Rag.pair_from length].
  - cbn. rewrite combine_nil. reflexivity.
  - destruct (nth_error idl i) as [id|] eqn:N.
    + assert (Hi : i < length idl) by (apply nth_error_Some; congruence).
      assert (Hs : skipn i idl = id :: skipn (S i) idl).
      { clear - N. revert i N. induction idl as [|a l IHl]; intros [|i] N; simpl in *;
          try discriminate; [injection N as ->; reflexivity | apply IHl; exact N]. }
      rewrite IH, Hs. cbn [combine map fst snd].
      destruct (Nat.leb_spec (length ds) (length idl - S i));
        destruct (Nat.leb_spec (S (length ds)) (length idl - i)); first [reflexivity | lia].
    + apply nth_error_None in N.
      destruct (Nat.leb_spec (S (length ds)) (length idl - i)); [lia | reflexivity].
Qed.

Lemma retrieve_spec : forall res code now log docs idl,
  Rag.first_or_empty (Rag.documents res) = Some docs ->
  Rag.first_or_empty (Rag.ids res) = Some idl ->
  Rag.retrieve_security_docs res code now log =
  if (length docs <=? length idl)%nat
  then Some (map (fun p => Rag.Retrieval (fst p) (snd p)) (combine idl docs),
             log ++ [Rag.LogEntry (substring 0 200 code)
                       (map (fun p => Rag.Retrieval (fst p) (snd p)) (combine idl docs)) now])
  else None.
Proof.
  intros res code now log docs idl Hd Hi. unfold Rag.retrieve_security_docs.
  rewrite Hd, Hi, pair_from_spec, Nat.sub_0_r. cbn [skipn].
  destruct (length docs <=? length idl)%nat; reflexivity.
Qed.

Lemma combine_fst : forall (l m : list string), map fst (combine l m) = firstn (length m) l.
Proof.
  induction l as [|a l IH]; intros [|b m]; simpl; try reflexivity.
  rewrite IH. reflexivity.
Qed.

Lemma combine_snd : forall (l m : list string), (length m <= length l)%nat ->
  map snd (combine l m) = m.
Proof.
  induction l as [|a l IH]; intros [|b m] H; simpl in *; try reflexivity; [lia|].
  rewrite IH; [reflexivity | lia].
Qed.

(** The retrieval raises exactly when the query returns fewer ids than
    documents (an absent key counting as an empty list); otherwise it pairs
    every document, in order, with the id at its index. *)
Theorem retrieve_pairs : forall res code now log docs idl,
  Rag.first_or_empty (Rag.documents res) = Some docs ->
  Rag.first_or_empty (Rag.ids res) = Some idl ->
  (Rag.retrieve_security_docs res code now log = None <-> (length idl < length docs)%nat) /\
  (forall rs log', Rag.retrieve_security_docs res code now log = Some (rs, log') ->
     map Rag.text rs = docs /\ map Rag.rid rs = firstn (length docs) idl).
Proof.
  intros res code now log docs idl Hd Hi. rewrite (retrieve_spec res code now log docs idl Hd Hi).
  destruct (Nat.leb_spec (length docs) (length idl)) as [L|L].
  - split; [split; [discriminate | lia]|].
    intros rs log' E. injection E as <- _. rewrite !map_map. cbn [Rag.text Rag.rid].
    split; [apply combine_snd; exact L | apply combine_fst].
  - split; [split; [intros _; exact L | reflexivity]|]. intros rs log' E. discriminate.
Qed.

Lemma retrieve_pairs_witness :
  (Rag.first_or_empty (Rag.documents two_docs) = Some ["doc one"; "doc two"] /\
   Rag.first_or_empty (Rag.ids two_docs) = Some ["A1"; "A2"; "A3"]) /\
  (Rag.retrieve_security_docs two_docs post_code 0%Z [] = None <->
     (length ["A1"; "A2"; "A3"] < length ["doc one"; "doc two"])%nat) /\
  (forall rs log', Rag.retrieve_security_docs two_docs post_code 0%Z [] = Some (rs, log') ->
     map Rag.text rs = ["doc one"; "doc two"] /\
     map Rag.rid rs = firstn (length ["doc one"; "doc two"]) ["A1"; "A2"; "A3"]).
Proof.
  split; [split; reflexivity|].
  apply (retrieve_pairs two_docs post_code 0%Z [] ["doc one"; "doc two"] ["A1"; "A2"; "A3"]);
    reflexivity.
Defined.

Lemma substring_prefix : forall n s, prefix (substring 0 n s) s = true.
Proof.
  intros n s. revert n. induction s as [|c s IH]; intros [|n]; simpl; try reflexivity.
  destruct (ascii_dec c c) as [_|C]; [apply IH | contradiction].
Qed.

Lemma substring_length : forall n s,
  String.length (substring 0 n s) = Nat.min n (String.length s).
Proof.
  intros n s. revert n. induction s as [|c s IH]; intros [|n]; simpl; try reflexivity.
  rewrite IH. reflexivity.
Qed.

(** A successful retrieval appends exactly one entry to the log, holding the
    first [min(200, len(code))] characters of the code, the retrievals and the
    clock reading. *)
Theorem retrieve_log : forall res code now log rs log',
  Rag.retrieve_security_docs res code now log = Some (rs, log') ->
  exists e, log' = log ++ [e] /\ Rag.results e = rs /\ Rag.time e = now /\
            prefix (Rag.input e) code = true /\
            String.length (Rag.input e) = Nat.min 200 (String.length code).
Proof.
  intros res code now log rs log' H. unfold Rag.retrieve_security_docs in H.
  destruct (Rag.first_or_empty (Rag.documents res)) as [docs|]; [|discriminate].
  destruct (Rag.first_or_empty (Rag.ids res)) as [idl|]; [|discriminate].
  destruct (Rag.pair_from idl docs 0) as [rs0|]; [|discriminate].
  injection H as <- <-. eexists. split; [reflexivity|]. cbn [Rag.results Rag.time Rag.input].
  split; [reflexivity | split; [reflexivity|]].
  split; [apply substring_prefix | apply substring_length].
Qed.

Lemma retrieve_log_witness :
  Rag.retrieve_security_docs two_docs "x" 7%Z [] =
    Some ([Rag.Retrieval "A1" "doc one"; Rag.Retrieval "A2" "doc two"],
          [Rag.LogEntry "x" [Rag.Retrieval "A1" "doc one"; Rag.Retrieval "A2" "doc two"] 7%Z]) /\
  exists e, [Rag.LogEntry "x" [Rag.Retrieval "A1" "doc one"; Rag.Retrieval "A2" "doc two"] 7%Z]
              = [] ++ [e] /\
            Rag.results e = [Rag.Retrieval "A1" "doc one"; Rag.Retrieval "A2" "doc two"] /\
            Rag.time e = 7%Z /\ prefix (Rag.input e) "x" = true /\
            String.length (Rag.input e) = Nat.min 200 (String.length "x").
Proof.
  assert (H : Rag.retrieve_security_docs two_docs "x" 7%Z [] =
    Some ([Rag.Retrieval "A1" "doc one"; Rag.Retrieval "A2" "doc two"],
          [Rag.LogEntry "x" [Rag.Retrieval "A1" "doc one"; Rag.Retrieval "A2" "doc two"] 7%Z]))
    by reflexivity.
  split; [exact H | exact (retrieve_log _ _ _ _ _ _ H)].
Defined.

(** The report's evidence ids are the ids of the retrieved documents in
    order, and each snippet carries the same id and is the first
    [min(300, len(d))] characters of its document [d]; the report is not
    produced (the call raises) only when there are fewer ids than documents. *)
Theorem report_evidence : forall res now log reply code docs idl,
  Rag.first_or_empty (Rag.documents res) = Some docs ->
  Rag.first_or_empty (Rag.ids res) = Some idl ->
  match Report.analyze_code_security res now log reply code with
  | None => (length idl < length docs)%nat
  | Some (rep, _) =>
      Report.evidence_ids rep = firstn (length docs) idl /\
      map Report.sid (Report.evidence_snippets rep) = Report.evidence_ids rep /\
      Forall2 (fun e d => prefix (Report.snippet e) d = true /\
                          String.length (Report.snippet e) = Nat.min 300 (String.length d))
        (Report.evidence_snippets rep) docs
  end.
Proof.
  intros res now log reply code docs idl Hd Hi. unfold Report.analyze_code_security.
  rewrite (retrieve_spec res code now log docs idl Hd Hi).
  destruct (Nat.leb_spec (length docs) (length idl)) as [L|L]; [|exact L].
  cbn [Report.evidence_ids Report.evidence_snippets]. rewrite !map_map. cbn [Rag.rid Rag.text Report.sid].
  split; [apply combine_fst|]. split; [reflexivity|].
  clear - L. revert docs L. induction idl as [|a l IH]; intros [|d ds] L; simpl in *;
    try constructor; try lia.
  - split; [apply substring_prefix | apply substring_length].
  - apply IH. lia.
Qed.

Lemma report_evidence_witness :
  (Rag.first_or_empty (Rag.documents two_docs) = Some ["doc one"; "doc two"] /\
   Rag.first_or_empty (Rag.ids two_docs) = Some ["A1"; "A2"; "A3"]) /\
  match Report.analyze_code_security two_docs 0%Z [] None post_code with
  | None => (length ["A1"; "A2"; "A3"] < length ["doc one"; "doc two"])%nat
  | Some (rep, _) =>
      Report.evidence_ids rep = firstn (length ["doc one"; "doc two"]) ["A1"; "A2"; "A3"] /\
      map Report.sid (Report.evidence_snippets rep) = Report.evidence_ids rep /\
      Forall2 (fun e d => prefix (Report.snippet e) d = true /\
                          String.length (Report.snippet e) = Nat.min 300 (String.length d))
        (Report.evidence_snippets rep) ["doc one"; "doc two"]
  end.
Proof.
  split; [split; reflexivity|].
  apply (report_evidence two_docs 0%Z [] None post_code ["doc one"; "doc two"] ["A1"; "A2"; "A3"]);
    reflexivity.
Defined.

Lemma spec_accepted_seen : forall code ext seen,
  (forall v, In v ext -> In (issue_name v) seen) -> spec_accepted seen ext code = [].
Proof.
  intros code; induction ext as [|v ext IH]; intros seen H; [reflexivity|]. cbn [spec_accepted].
  rewrite (mem_true _ _ (H v (or_introl eq_refl))). apply IH.
  intros w Hw. apply H. right. exact Hw.
Qed.

(** When neither model reply parses, or the parsed reply has no
    [vulnerabilities] key, the report lists exactly the canonicalised static
    findings; its summary is then the fallback text, or the reply's summary
    (default [Security analysis completed.]). *)
Theorem report_without_model_findings : forall res now log code sm,
  (forall rep log',
     Report.analyze_code_security res now log None code = Some (rep, log') ->
     Pipeline.vulnerabilities (Report.core rep)
       = map canonicalize_finding (Static.run_static_analysis code) /\
     Report.summary rep = "Analysis completed with static findings only.") /\
  (forall rep log',
     Report.analyze_code_security res now log (Some (Report.Parsed None sm)) code
       = Some (rep, log') ->
     Pipeline.vulnerabilities (Report.core rep)
       = map canonicalize_finding (Static.run_static_analysis code) /\
     Report.summary rep = match sm with Some s => s | None => "Security analysis completed." end).
Proof.
  intros res now log code sm. unfold Report.analyze_code_security.
  destruct (Rag.retrieve_security_docs res code now log) as [[rag l']|];
    split; intros rep log' H; try discriminate; injection H as <- _;
    cbn [Report.core Report.summary Report.fallback Report.p_vulnerabilities Report.p_summary];
    unfold analyze; cbn [Pipeline.vulnerabilities]; rewrite merge_app;
    (split; [|reflexivity]).
  - rewrite spec_accepted_seen; [rewrite app_nil_r; reflexivity|].
    intros v Hv. apply in_map. exact Hv.
  - cbn [spec_accepted]. rewrite app_nil_r. reflexivity.
Qed.

(** *** The two pattern matchers, the two merges *)

Lemma secret_loop_mkf : forall pats mkf1 mkf2 code,
  Forall2 (fun a b => exists ml, a = mkf1 ml /\ b = mkf2 ml)
    (secret_loop pats mkf1 code) (secret_loop pats mkf2 code).
Proof.
  induction pats as [|p ps IH]; intros mkf1 mkf2 code; simpl; [constructor|].
  destruct (finditer FI p code) as [|m ms]; [apply IH|].
  simpl. constructor; [eexists; split; reflexivity | constructor].
Qed.

Lemma forall2_refl : forall (R : finding -> finding -> Prop) l,
  (forall f, R f f) -> Forall2 R l l.
Proof. intros R l H. induction l; constructor; auto. Qed.

(** The legacy pattern matcher's findings are the first findings of the
    current one, with the same issue, explanation, lines and fix; the
    severities agree except for a hard-coded secret, high in the legacy
    matcher and critical in the current one. *)
Theorem legacy_static_prefix : forall code,
  exists cur rest,
    Static.run_static_analysis code = cur ++ rest /\
    Forall2 (fun l c => issue l = issue c /\ explanation l = explanation c /\
                        line_numbers l = line_numbers c /\
                        fix_suggestion l = fix_suggestion c /\
                        (severity l = severity c \/
                         (issue l = Some "Hardcoded Secret" /\ severity l = Some "high" /\
                          severity c = Some "critical")))
      (Legacy.run_static_analysis code) cur.
Proof.
  intros code.
  exists (sql_rule code ++ secret_rule code ++ eval_rule code ++ exec_rule code
          ++ os_system_rule code).
  exists (flat_map (fun rule => rule code)
            [subprocess_rule; ssrf_rule; xss_rule; pickle_rule; md5_rule; debug_rule;
             csrf_rule; logging_rule; path_rule; idor_rule]).
  split.
  - unfold run_static_analysis, rules. cbn [flat_map]. rewrite <- !app_assoc. reflexivity.
  - unfold Legacy.run_static_analysis, Legacy.rules. cbn [flat_map]. rewrite app_nil_r.
    assert (R : forall f : finding,
               issue f = issue f /\ explanation f = explanation f /\
               line_numbers f = line_numbers f /\ fix_suggestion f = fix_suggestion f /\
               (severity f = severity f \/
                (issue f = Some "Hardcoded Secret" /\ severity f = Some "high" /\
                 severity f = Some "critical"))) by (intros; repeat split; left; reflexivity).
    repeat apply Forall2_app; try (apply forall2_refl; exact R).
    unfold Legacy.secret_rule, secret_rule.
    eapply Forall2_impl; [|apply secret_loop_mkf].
    intros a b [ml [-> ->]]. cbn. repeat split. right. repeat split.
Qed.

Lemma accepted_names : forall code ext seen v, In v ext ->
  In (issue_name v) seen \/ In (issue_name v) (map issue_name (spec_accepted seen ext code))
  \/ verify_ai_finding v code = false.
Proof.
  intros code; induction ext as [|w ext IH]; intros seen v H; [contradiction|].
  cbn [spec_accepted].
  destruct (Py.mem (issue_name w) seen) eqn:M.
  - destruct H as [<-|H]; [left; apply mem_In; exact M | exact (IH seen v H)].
  - destruct (verify_ai_finding w code) eqn:V.
    + destruct H as [<-|H]; [right; left; left; reflexivity|].
      destruct (IH (issue_name w :: seen) v H) as [[E|E]|[E|E]].
      * right. left. left. exact E.
      * left. exact E.
      * right. left. right. exact E.
      * right. right. exact E.
    + destruct H as [<-|H]; [right; right; exact V | exact (IH seen v H)].
Qed.

Lemma spec_accepted_none : forall code ext seen,
  (forall v, In v ext -> In (issue_name v) seen \/ verify_ai_finding v code = false) ->
  spec_accepted seen ext code = [].
Proof.
  intros code; induction ext as [|v ext IH]; intros seen H; [reflexivity|]. cbn [spec_accepted].
  destruct (Py.mem (issue_name v) seen) eqn:M;
    [apply IH; intros w Hw; apply H; right; exact Hw|].
  destruct (H v (or_introl eq_refl)) as [Hn|Hv];
    [apply mem_true in Hn; congruence|].
  rewrite Hv. apply IH. intros w Hw. apply H. right. exact Hw.
Qed.

(** Merging the same external findings a second time changes nothing, in the
    current merge and in the legacy one. *)
Theorem merge_idempotent : forall heur ext code,
  Pipeline.merge (Pipeline.merge heur ext code) ext code = Pipeline.merge heur ext code /\
  Legacy.merge (Legacy.merge heur ext) ext = Legacy.merge heur ext.
Proof.
  intros heur ext code. split.
  - rewrite (merge_app (merge heur ext code)). rewrite spec_accepted_none; [apply app_nil_r|].
    intros v Hv. rewrite merge_app, map_app.
    destruct (accepted_names code ext (map issue_name heur) v Hv) as [E|[E|E]];
      [left; apply in_or_app; left; exact E | left; apply in_or_app; right; exact E
      | right; exact E].
  - rewrite (legacy_merge_fresh (Legacy.merge heur ext)).
    assert (F : forall seen l, (forall v, In v l -> In (issue_name v) seen) -> fresh seen l = []).
    { intros seen; induction l as [|v l IHl]; intros Hl; [reflexivity|]. cbn [fresh].
      rewrite (mem_true _ _ (Hl v (or_introl eq_refl))). apply IHl.
      intros w Hw. apply Hl. right. exact Hw. }
    rewrite F; [apply app_nil_r|]. intros v Hv. rewrite legacy_merge_fresh, map_app.
    apply in_or_app. exact (fresh_names ext _ v Hv).
Qed.

End Further.
